(** * Financial news agent: filter, enrichment, alerting and cycle arithmetic

    A shallow embedding of the article pipeline of the agent
    ([src/data_processor.py], [src/llm_service.py], [src/news_fetcher.py],
    [src/main.py]) together with the properties its specification states.

    Python values are embedded as follows.
    - A dictionary with string keys (an article) is a [gmap string pyval];
      [dict.get(k)] is [dict_get], [dict.get(k, d)] is [dict_get_or] and
      [d[k] = v] is [<[k:=v]> d].
    - The values stored in an article are [None] or a [str] ([pyval]).
    - A Python [str] is a [string] holding its UTF-8 encoding; a character
      is a byte with the continuation bytes that follow it.  [strip]
      removes the whitespace characters of Unicode; [capitalize] changes
      the case of ASCII letters, which is all that the comparison with the
      three sentiment labels depends on.
    - A raised exception is an explicit [Raise] result ([pyresult]).
    - A Python [float] is a binary64 value ([spec_float] with precision 53
      and maximal exponent 1024); the sleep arithmetic is carried out
      on it, and compared with the primitive floats on worked values.
    - The output file is the list of what the save calls appended to it:
      complete lines, and beginnings of lines left by failed writes. *)

From Stdlib Require Import PrimFloat.
From Stdlib Require Import Ascii String ZArith SpecFloat FloatOps.
From stdpp Require Import gmap strings list fin_maps.

Open Scope string_scope.
Open Scope list_scope.

(** ** Python values and built-ins *)

Module Py.

Inductive pyval : Type :=
  | PNone
  | PStr (s : string).

#[global] Instance pyval_eq_dec : EqDecision pyval.
Proof. solve_decision. Defined.

Inductive pyexn : Type :=
  | TypeError (msg : string)
  | AttributeError (msg : string).

Inductive pyresult (A : Type) : Type :=
  | Ok (a : A)
  | Raise (e : pyexn).
Arguments Ok {A} a.
Arguments Raise {A} e.

#[global] Instance pyexn_eq_dec : EqDecision pyexn.
Proof. solve_decision. Defined.
#[global] Instance pyresult_eq_dec `{EqDecision A} : EqDecision (pyresult A).
Proof. solve_decision. Defined.

#[global] Instance pyresult_ret : MRet pyresult := fun A a => Ok a.
#[global] Instance pyresult_bind : MBind pyresult := fun A B k m =>
  match m with
  | Ok a => k a
  | Raise e => Raise e
  end.

(** [str(e)] of an exception. *)
Definition exn_str (e : pyexn) : string :=
  match e with
  | TypeError msg => msg
  | AttributeError msg => msg
  end.

(** [bool(v)]: [None] and the empty string are false. *)
Definition truthy (v : pyval) : bool :=
  match v with
  | PNone => false
  | PStr s => negb (String.eqb s "")
  end.

(** [f"{v}"]. *)
Definition format (v : pyval) : string :=
  match v with
  | PNone => "None"
  | PStr s => s
  end.


(** [d.get(k)] and [d.get(k, default)]. *)
Definition dict_get (d : gmap string pyval) (k : string) : pyval :=
  match d !! k with
  | Some v => v
  | None => PNone
  end.

Definition dict_get_or (d : gmap string pyval) (k : string) (default : pyval) : pyval :=
  match d !! k with
  | Some v => v
  | None => default
  end.

(** [x in s] for a set [s] that only ever holds strings. *)
Definition set_contains (x : pyval) (s : gset string) : bool :=
  match x with
  | PNone => false
  | PStr u => bool_decide (u ∈ s)
  end.

(** A [str] is held as the bytes of its UTF-8 encoding.  A character (a
    code point) is a lead byte with the continuation bytes ([10xxxxxx])
    that follow it. *)
Definition is_continuation (c : ascii) : bool :=
  let n := nat_of_ascii c in ((128 <=? n) && (n <? 192))%nat.

Definition starts_with_continuation (s : string) : bool :=
  match s with
  | EmptyString => false
  | String c _ => is_continuation c
  end.

Fixpoint characters (s : string) : list string :=
  match s with
  | EmptyString => []
  | String c rest =>
      match characters rest with
      | ch :: chs =>
          if starts_with_continuation ch then String c ch :: chs
          else String c EmptyString :: ch :: chs
      | [] => [String c EmptyString]
      end
  end.

Definition join_characters (chs : list string) : string :=
  foldr String.append EmptyString chs.

(** [ch.isspace()] for one character, that is the characters [str.strip()]
    removes: U+0009 to U+000D, U+001C to U+0020, U+0085, U+00A0, U+1680,
    U+2000 to U+200A, U+2028, U+2029, U+202F, U+205F and U+3000, by their
    UTF-8 bytes. *)
Definition isspace (ch : string) : bool :=
  match ch with
  | String a EmptyString =>
      let n := nat_of_ascii a in
      ((9 <=? n) && (n <=? 13) || (28 <=? n) && (n <=? 32))%nat
  | String a (String b EmptyString) =>
      let n := nat_of_ascii a in
      let m := nat_of_ascii b in
      ((n =? 194) && ((m =? 133) || (m =? 160)))%nat
  | String a (String b (String c EmptyString)) =>
      let n := nat_of_ascii a in
      let m := nat_of_ascii b in
      let k := nat_of_ascii c in
      ((n =? 225) && (m =? 154) && (k =? 128)
       || (n =? 226) && (m =? 128)
          && ((128 <=? k) && (k <=? 138) || (k =? 168) || (k =? 169) || (k =? 175))
       || (n =? 226) && (m =? 129) && (k =? 159)
       || (n =? 227) && (m =? 128) && (k =? 128))%nat
  | _ => false
  end.

Fixpoint lstrip_characters (chs : list string) : list string :=
  match chs with
  | [] => []
  | ch :: rest => if isspace ch then lstrip_characters rest else chs
  end.

(** A character is dropped from the right end when it is whitespace and
    everything after it has been dropped. *)
Fixpoint rstrip_characters (chs : list string) : list string :=
  match chs with
  | [] => []
  | ch :: rest =>
      match rstrip_characters rest with
      | [] => if isspace ch then [] else [ch]
      | r => ch :: r
      end
  end.

(** [s.strip()]. *)
Definition strip (s : string) : string :=
  join_characters (rstrip_characters (lstrip_characters (characters s))).

(** [v[:n]]: the first [n] characters of a string, a [TypeError] on
    [None]. *)
Definition slice_to (v : pyval) (n : nat) : pyresult string :=
  match v with
  | PNone => Raise (TypeError "'NoneType' object is not subscriptable")
  | PStr s => Ok (join_characters (take n (characters s)))
  end.

(** The letter case of the ASCII letters; every other byte, so every
    character outside ASCII, is left as it is.  The code uses [capitalize]
    only to compare the result with the ASCII words [Positive], [Negative]
    and [Neutral]: under Python's case mapping no string that holds a
    character outside ASCII becomes one of these words, and here it does
    not either, so that comparison has the outcome it has in Python. *)
Definition upper_char (c : ascii) : ascii :=
  let n := nat_of_ascii c in
  if ((97 <=? n) && (n <=? 122))%nat then ascii_of_nat (n - 32) else c.

Definition lower_char (c : ascii) : ascii :=
  let n := nat_of_ascii c in
  if ((65 <=? n) && (n <=? 90))%nat then ascii_of_nat (n + 32) else c.

Fixpoint lower (s : string) : string :=
  match s with
  | EmptyString => EmptyString
  | String c rest => String (lower_char c) (lower rest)
  end.

(** [s.capitalize()]: first character upper-cased, the rest lower-cased. *)
Definition capitalize (s : string) : string :=
  match s with
  | EmptyString => EmptyString
  | String c rest => String (upper_char c) (lower rest)
  end.

(** [s.startswith(p)]. *)
Definition startswith (s p : string) : bool := String.prefix p s.

(** Numbers.  A Python [float] is an IEEE 754 binary64 value: a
    [spec_float] of precision 53 and maximal exponent 1024, on which
    [SFsub], [SFdiv] and the comparisons compute what the machine
    computes, rounding to nearest, ties to even. *)
Definition prec : Z := 53.
Definition emax : Z := 1024.

Inductive number : Type :=
  | PInt (n : Z)
  | PFloat (x : spec_float).

(** [float(n)], as an [int] operand of a mixed operation is converted. *)
Definition float_of_int (n : Z) : spec_float :=
  binary_normalize prec emax n 0 false.

(** The float [n / d] of two integers that are floats exactly. *)
Definition float_of_ratio (n d : Z) : spec_float :=
  SFdiv prec emax (float_of_int n) (float_of_int d).

End Py.
Import Py.

(** An article is a Python dictionary. *)
Abbreviation Article := (gmap string pyval).

(** ** [src/data_processor.py] *)

Module data_processor.

(** The body of the [for article in articles] loop of [filter_articles],
    with its two accumulators.  The f-string of the first [logger.debug]
    call slices [title] and is evaluated before the [continue]. *)
Fixpoint filter_loop (articles : list Article) (seen_urls : gset string)
    (filtered_list : list Article) : pyresult (list Article) :=
  match articles with
  | [] => Ok filtered_list
  | article :: rest =>
      let title := dict_get article "title" in
      let description := dict_get article "description" in
      let url := dict_get article "url" in
      if negb (truthy title) || negb (truthy description) then
        slice_to title 50 ;;
        filter_loop rest seen_urls filtered_list
      else if set_contains url seen_urls then
        filter_loop rest seen_urls filtered_list
      else
        let seen_urls :=
          match url with
          | PStr u => if truthy url then {[u]} ∪ seen_urls else seen_urls
          | PNone => seen_urls
          end in
        filter_loop rest seen_urls (filtered_list ++ [article])
  end.

Definition filter_articles (articles : list Article) : pyresult (list Article) :=
  filter_loop articles ∅ [].

End data_processor.
Import data_processor.

(** ** [src/llm_service.py] *)

Module llm_service.

(** What [self.client.invoke(messages)] does: it answers with a message
    whose [content] is a string, or raises. *)
Inductive backend_reply : Type :=
  | Content (content : string)
  | OutputParserException (msg : string)
  | InvokeException (msg : string).

Record LLMService : Type := {
  client : option (string -> string -> backend_reply)
}.

Definition nl : string := String (ascii_of_nat 10) EmptyString.

(** [LLMService.generate_response]: every exception of the invocation is
    caught and logged; the method then returns [None]. *)
Definition generate_response (self : LLMService)
    (system_prompt user_prompt : string) : pyval :=
  match client self with
  | None => PNone
  | Some invoke =>
      match invoke system_prompt user_prompt with
      | Content content => PStr content
      | OutputParserException _ => PNone
      | InvokeException _ => PNone
      end
  end.

Definition summarize_system_prompt : string :=
  "You are an expert financial analyst assistant. Summarize the key financial information or event described in the following text in one or two concise sentences. Focus on the core news relevant to an investor.".

Definition summarize_user_prompt (text : string) : string :=
  "Text to summarize:" +:+ nl +:+ nl +:+ "```" +:+ nl +:+ text +:+ nl +:+ "```"
  +:+ nl +:+ nl +:+ "Concise financial summary:".

Definition summarize_text (llm_service : LLMService) (text : string) : pyval :=
  match client llm_service with
  | None => PNone
  | Some _ =>
      let summary :=
        generate_response llm_service summarize_system_prompt
          (summarize_user_prompt text) in
      summary
  end.

Definition sentiment_system_prompt : string :=
  "You are an expert financial analyst specializing in sentiment analysis. "
  +:+ "Analyze the sentiment of the following financial text (e.g., news headline, description, social media post). "
  +:+ "Consider the potential impact on the stock or market mentioned. "
  +:+ "Respond with only ONE of the following words: Positive, Negative, or Neutral.".

Definition sentiment_user_prompt (text : string) : string :=
  "Financial text:" +:+ nl +:+ nl +:+ "```" +:+ nl +:+ text +:+ nl +:+ "```"
  +:+ nl +:+ nl +:+ "Sentiment (Positive/Negative/Neutral):".

Definition sentiment_labels : list string := ["Positive"; "Negative"; "Neutral"].

Definition analyze_sentiment (llm_service : LLMService) (text : string) : pyval :=
  match client llm_service with
  | None => PNone
  | Some _ =>
      let sentiment :=
        generate_response llm_service sentiment_system_prompt
          (sentiment_user_prompt text) in
      match sentiment with
      | PStr raw =>
          if truthy sentiment then
            let sentiment := capitalize (strip raw) in
            if bool_decide (sentiment ∈ sentiment_labels) then PStr sentiment
            else PNone
          else PNone
      | PNone => PNone
      end
  end.

Definition topic_system_prompt : string :=
  "You are an expert financial analyst. Read the following financial text and identify the main topic or event being discussed. "
  +:+ "Be specific and concise. Examples: 'Earnings Report', 'Product Launch', 'Executive Appointment', 'Stock Split', 'Macroeconomic Data Release', 'Regulatory Filing', 'Merger/Acquisition'."
  +:+ "Respond with only the topic name.".

Definition topic_user_prompt (text : string) : string :=
  "Financial text:" +:+ nl +:+ nl +:+ "```" +:+ nl +:+ text +:+ nl +:+ "```"
  +:+ nl +:+ nl +:+ "Main Financial Topic/Event:".

Definition extract_topic (llm_service : LLMService) (text : string) : pyval :=
  match client llm_service with
  | None => PNone
  | Some _ =>
      let topic :=
        generate_response llm_service topic_system_prompt
          (topic_user_prompt text) in
      match topic with
      | PStr raw => if truthy topic then PStr (strip raw) else PNone
      | PNone => PNone
      end
  end.

End llm_service.

(** ** [src/news_fetcher.py] *)

Module news_fetcher.

(** One element of the ["articles"] array of the NewsAPI answer: its
    string-or-null members, and its ["source"] member, which is absent,
    null, or an object. *)
Inductive api_source : Type :=
  | SourceAbsent
  | SourceNull
  | SourceObject (members : gmap string pyval).

Record api_article : Type := {
  members : gmap string pyval;
  source : api_source
}.

(** The outcome of [client.get] followed by [raise_for_status] and
    [response.json()]: one of the three [except] clauses is entered, or the
    body is a JSON object with its ["status"] and ["articles"] members. *)
Inductive http_outcome : Type :=
  | HTTPStatusError (status_code : nat) (text : string)
  | RequestError (msg : string)
  | UnexpectedError (msg : string)
  | JsonBody (status : pyval) (articles : list api_article).

(** [article.get("source", {}).get("name")]. *)
Definition source_name (a : api_article) : pyresult pyval :=
  match source a with
  | SourceAbsent => Ok PNone
  | SourceNull => Raise (AttributeError "'NoneType' object has no attribute 'get'")
  | SourceObject d => Ok (dict_get d "name")
  end.

(** The [for article in articles] loop of [fetch_news_for_symbol].  An
    exception leaves the loop; the enclosing [except Exception] prints it
    and the function returns what [articles_list] holds by then. *)
Fixpoint extract_loop (symbol : string) (articles : list api_article)
    (articles_list : list Article) : list Article :=
  match articles with
  | [] => articles_list
  | a :: rest =>
      match source_name a with
      | Raise _ => articles_list
      | Ok name =>
          extract_loop symbol rest
            (articles_list ++
               [ <["symbol" := PStr symbol]>
                 (<["title" := dict_get (members a) "title"]>
                 (<["description" := dict_get (members a) "description"]>
                 (<["url" := dict_get (members a) "url"]>
                 (<["published_at" := dict_get (members a) "publishedAt"]>
                 (<["source" := name]> ∅))))) ])
      end
  end.

Definition fetch_news_for_symbol (symbol : string) (response : http_outcome)
    : list Article :=
  match response with
  | HTTPStatusError _ _ => []
  | RequestError _ => []
  | UnexpectedError _ => []
  | JsonBody status articles =>
      if bool_decide (status = PStr "ok") then extract_loop symbol articles []
      else []
  end.

(** An element of the list [asyncio.gather(..., return_exceptions=True)]
    returns: the value of the task, or the exception it raised. *)
Inductive gathered (A : Type) : Type :=
  | Returned (value : A)
  | Raised (e : string).
Arguments Returned {A} value.
Arguments Raised {A} e.

(** The [for i, result in enumerate(results)] loop. *)
Fixpoint collect (results : list (gathered (list Article)))
    (all_articles : list Article) : list Article :=
  match results with
  | [] => all_articles
  | Returned result :: rest => collect rest (all_articles ++ result)
  | Raised _ :: rest => collect rest all_articles
  end.

(** [fetch_news_for_watchlist], over the configuration it reads and the
    task it starts for each symbol. *)
Definition fetch_news_for_watchlist (api_key : pyval) (watchlist : list string)
    (task : string -> gathered (list Article)) : list Article :=
  if negb (truthy api_key) then []
  else
    match watchlist with
    | [] => []
    | _ => collect (map task watchlist) []
    end.

(** The task the module itself starts: [fetch_news_for_symbol] on the
    answer of the news API for that symbol. *)
Definition symbol_task (http : string -> http_outcome) (symbol : string)
    : gathered (list Article) :=
  Returned (fetch_news_for_symbol symbol (http symbol)).

End news_fetcher.

(** ** [src/main.py] *)

Module main.
Import llm_service news_fetcher.

Definition FETCH_INTERVAL_SECONDS : Z := 15 * 60.
Definition PROCESS_BATCH_SIZE : nat := 5.

(** The three coroutines [process_single_article] awaits, by the names
    [src/main.py] imports them under. *)
Record enrichment : Type := {
  summarize_text : string -> gathered pyval;
  analyze_sentiment : string -> gathered pyval;
  extract_topic : string -> gathered pyval
}.

(** The coroutines of [src/llm_service.py] on a given service instance;
    none of them raises. *)
Definition llm_enrichment (svc : LLMService) : enrichment := {|
  summarize_text text := Returned (llm_service.summarize_text svc text);
  analyze_sentiment text := Returned (llm_service.analyze_sentiment svc text);
  extract_topic text := Returned (llm_service.extract_topic svc text)
|}.

(** [x if not isinstance(x, Exception) else f"Error: {x}"]. *)
Definition value_or_error (x : gathered pyval) : pyval :=
  match x with
  | Returned v => v
  | Raised e => PStr ("Error: " +:+ e)
  end.

Definition text_to_process (article : Article) : string :=
  format (dict_get_or article "title" (PStr "")) +:+ nl
  +:+ format (dict_get_or article "description" (PStr "")).

(** The [try] block of [process_single_article]. *)
Definition enrich (llm : enrichment) (article : Article) (text : string)
    : pyresult Article :=
  let summary := summarize_text llm text in
  let sentiment := analyze_sentiment llm text in
  let topic := extract_topic llm text in
  let article := <["summary" := value_or_error summary]> article in
  let article := <["sentiment" := value_or_error sentiment]> article in
  let article := <["topic" := value_or_error topic]> article in
  Ok article.

Definition process_single_article (llm : enrichment) (article : Article)
    : Article :=
  let text := text_to_process article in
  if negb (truthy (PStr (strip text))) then article
  else
    match enrich llm article text with
    | Ok article => article
    | Raise e => <["processing_error" := PStr (exn_str e)]> article
    end.

(** The call [send_slack_alert(text=..., blocks=alert_attachments)]. *)
Record slack_call : Type := {
  fallback_text : string;
  color : string;
  header : string;
  fields : list string;
  title_section : string;
  summary_section : string
}.

Inductive alert_action : Type :=
  | Deliver (call : slack_call)
  | SkipWarning
  | NoAlert.

Definition trigger_alert_if_needed (article : Article) : alert_action :=
  let sentiment := dict_get article "sentiment" in
  if truthy sentiment &&
     bool_decide (sentiment ∈ [PStr "Positive"; PStr "Negative"]) then
    let title := format (dict_get_or article "title" (PStr "N/A")) in
    let summary := format (dict_get_or article "summary" (PStr "N/A")) in
    let topic := format (dict_get_or article "topic" (PStr "N/A")) in
    let url := format (dict_get_or article "url" (PStr "#")) in
    let symbol := format (dict_get_or article "symbol" (PStr "N/A")) in
    let source := format (dict_get_or article "source" (PStr "N/A")) in
    let published_at := format (dict_get_or article "published_at" (PStr "N/A")) in
    let color :=
      if bool_decide (sentiment = PStr "Positive") then "#36a64f" else "#ff0000" in
    Deliver {|
      fallback_text :=
        "[" +:+ format sentiment +:+ "] " +:+ symbol +:+ " (" +:+ topic +:+ "): "
        +:+ title +:+ " - " +:+ url;
      color := color;
      header :=
        format sentiment +:+ " Sentiment Alert: " +:+ symbol +:+ " (" +:+ topic +:+ ")";
      fields :=
        [ "*Symbol:*" +:+ nl +:+ symbol;
          "*Detected Topic:*" +:+ nl +:+ topic;
          "*Source:*" +:+ nl +:+ source;
          "*Published:*" +:+ nl +:+ published_at ];
      title_section := "*Title:*" +:+ nl +:+ "<" +:+ url +:+ "|" +:+ title +:+ ">";
      summary_section := "*Summary:*" +:+ nl +:+ summary
    |}
  else
    match sentiment with
    | PStr s =>
        if truthy sentiment && startswith s "Error:" then SkipWarning else NoAlert
    | PNone => NoAlert
    end.

Definition delivery (action : alert_action) : option slack_call :=
  match action with
  | Deliver call => Some call
  | SkipWarning => None
  | NoAlert => None
  end.

(** What happens inside the [try] block of one call of
    [save_processed_article]: [json.dump] and the write of the line feed
    go through, or an exception is raised after [written] characters of the
    line reached the file ([json.dump] writes the text piece by piece, so
    a failure can leave the beginning of a line behind). *)
Inductive write_outcome : Type :=
  | Written
  | Failed (written : nat).

(** The store is the file, as the sequence of what the calls appended to
    it: the complete line of an article, or the first characters of the
    line of an article. *)
Inductive entry : Type :=
  | Line (article : Article)
  | Fragment (article : Article) (written : nat).

(** [save_processed_article]: the file is opened for appending; a failure
    is logged, not raised, and what was written by then stays. *)
Definition save_processed_article (article : Article) (outcome : write_outcome)
    (store : list entry) : list entry :=
  match outcome with
  | Written => store ++ [Line article]
  | Failed 0 => store
  | Failed (S n) => store ++ [Fragment article (S n)]
  end.

(** The [asyncio.gather] over the alert and the save tasks, for its save tasks:
    no save task awaits anything, so the tasks run one after the other in
    the order of [save_tasks]; the [k]-th of them has the outcome
    [writes k]. *)
Fixpoint run_save_tasks (writes : nat -> write_outcome) (k : nat)
    (save_tasks : list Article) (store : list entry) : list entry :=
  match save_tasks with
  | [] => store
  | article :: rest =>
      run_save_tasks writes (S k) rest
        (save_processed_article article (writes k) store)
  end.

(** [max(0, FETCH_INTERVAL_SECONDS - elapsed_time)], where [elapsed_time]
    is the float [time.monotonic() - start_time]: the interval is converted
    to a float and the subtraction is the one of binary64; [max] keeps its
    first argument, the [int] 0, unless the second compares greater. *)
Definition sleep_time (elapsed_time : spec_float) : number :=
  let remaining :=
    SFsub prec emax (float_of_int FETCH_INTERVAL_SECONDS) elapsed_time in
  if SFltb (float_of_int 0) remaining then PFloat remaining else PInt 0.

(** The same expression on the primitive floats of the machine. *)
Definition sleep_time_binary64 (elapsed_time : PrimFloat.float) : PrimFloat.float :=
  let remaining := PrimFloat.sub 900%float elapsed_time in
  if PrimFloat.ltb 0%float remaining then remaining else 0%float.

(** [range(0, n, step)] has [ceil(n / step)] elements. *)
Definition batch_starts (n step : nat) : list nat :=
  (λ k, k * step) <$> seq 0 ((n + step - 1) / step).

(** The batching loop: batch [filtered_articles[i:i + PROCESS_BATCH_SIZE]]
    is processed as a whole and its results extend [processed_articles]. *)
Definition process_batches (llm : enrichment) (filtered_articles : list Article)
    : list Article :=
  foldl
    (λ processed_articles i,
       let batch := take PROCESS_BATCH_SIZE (drop i filtered_articles) in
       let results := process_single_article llm <$> batch in
       processed_articles ++ results)
    [] (batch_starts (length filtered_articles) PROCESS_BATCH_SIZE).

(** What one pass of the [while True] body reads from outside. *)
Record cycle_world : Type := {
  news_api_key : pyval;
  watchlist : list string;
  fetch_task : string -> gathered (list Article);
  llm : enrichment;
  writes : nat -> write_outcome;
  elapsed_time : spec_float
}.

(** What it does to the outside. *)
Record cycle_effects : Type := {
  alerts : list slack_call;
  store : list entry
}.

(** The loop that builds [alert_tasks] and [save_tasks]; its [print]
    slices the title of every processed article. *)
Definition finalize_tasks (processed_articles : list Article)
    : pyresult (list Article) :=
  mapM (λ article,
          slice_to (dict_get article "title") 30 ;; Ok article)
       processed_articles.

(** The [try] block of the cycle. *)
Definition cycle_body (w : cycle_world) (st : list entry)
    : pyresult cycle_effects :=
  let raw_articles := fetch_news_for_watchlist (news_api_key w) (watchlist w) (fetch_task w) in
  filtered_articles ← filter_articles raw_articles;
  match filtered_articles with
  | [] => Ok {| alerts := []; store := st |}
  | _ =>
      let processed_articles := process_batches (llm w) filtered_articles in
      scheduled ← finalize_tasks processed_articles;
      Ok {| alerts := omap (λ a, delivery (trigger_alert_if_needed a)) scheduled;
            store := run_save_tasks (writes w) 0 scheduled st |}
  end.

(** One pass of the [while True] body: an exception of the [try] block is
    printed, and the pass always ends in [asyncio.sleep(sleep_time)]. *)
Definition run_cycle (w : cycle_world) (st : list entry)
    : cycle_effects * number :=
  let effects :=
    match cycle_body w st with
    | Ok effects => effects
    | Raise _ => {| alerts := []; store := st |}
    end in
  (effects, sleep_time (elapsed_time w)).

(** The [while True] loop over the passes it makes, each with what it
    reads from outside; the store is threaded from pass to pass. *)
Fixpoint cycles (worlds : list cycle_world) (st : list entry)
    : list (cycle_effects * number) :=
  match worlds with
  | [] => []
  | w :: rest =>
      let pass := run_cycle w st in
      pass :: cycles rest (store (fst pass))
  end.


End main.
Import llm_service news_fetcher main.

(** ** Vocabulary of the statements *)

(** The two checks of the loop body, read off the code: the content gate
    and the duplicate test against the urls seen so far. *)
Definition content_ok (a : Article) : bool :=
  truthy (dict_get a "title") && truthy (dict_get a "description").

Definition accepts (seen : gset string) (a : Article) : bool :=
  content_ok a && negb (set_contains (dict_get a "url") seen).

Definition seen_step (seen : gset string) (a : Article) : gset string :=
  if accepts seen a then
    match dict_get a "url" with
    | PStr u => if truthy (PStr u) then {[u]} ∪ seen else seen
    | PNone => seen
    end
  else seen.

Definition seen_after (l : list Article) (seen : gset string) : gset string :=
  foldl seen_step seen l.

(** The articles the loop retains when no exception interrupts it. *)
Fixpoint kept (l : list Article) (seen : gset string) : list Article :=
  match l with
  | [] => []
  | a :: rest =>
      if accepts seen a then a :: kept rest (seen_step seen a) else kept rest seen
  end.

(** An earlier article that passed the content gate carries the same
    non-empty url as [a]. *)
Definition url_seen_before (l1 : list Article) (a : Article) : Prop :=
  ∃ x u, x ∈ l1 ∧ content_ok x = true ∧ u ≠ "" ∧
         dict_get x "url" = PStr u ∧ dict_get a "url" = PStr u.

(** The sentiment is exactly ["Positive"] or exactly ["Negative"]. *)
Definition significant (a : Article) : Prop :=
  dict_get a "sentiment" = PStr "Positive" ∨ dict_get a "sentiment" = PStr "Negative".

#[global] Instance significant_dec a : Decision (significant a).
Proof. unfold significant. apply _. Defined.

Definition raw_keys : list string :=
  ["symbol"; "title"; "description"; "url"; "published_at"; "source"].
Definition enrichment_keys : list string := ["summary"; "sentiment"; "topic"].
Definition required_keys : list string := raw_keys ++ enrichment_keys.

Definition has_keys (keys : list string) (d : gmap string pyval) : Prop :=
  ∀ k, k ∈ keys → is_Some (d !! k).

(** The text handed to the three calls is blank. *)
Definition blank_text (a : Article) : Prop := strip (text_to_process a) = "".

#[global] Instance blank_text_dec a : Decision (blank_text a).
Proof. unfold blank_text. apply _. Defined.

(** A backend reply that is not a message: the invocation raised. *)
Definition backend_failed (reply : backend_reply) : Prop :=
  ∀ content, reply ≠ Content content.

(** What a gathered fetch task contributes to the combined list. *)
Definition contribution (result : gathered (list Article)) : list Article :=
  match result with
  | Returned l => l
  | Raised _ => []
  end.





(** The article an entry of the store was written for, and the complete
    lines of the store. *)
Definition entry_article (e : entry) : Article :=
  match e with
  | Line article => article
  | Fragment article _ => article
  end.

Definition lines (store : list entry) : list Article :=
  omap (λ e, match e with Line article => Some article | Fragment _ _ => None end)
       store.

(** What one save task appends to the file. *)
Definition appended (article : Article) (outcome : write_outcome) : list entry :=
  save_processed_article article outcome [].

(** What the save tasks of a pass append, the first of them being the
    [k]-th write. *)
Fixpoint appended_all (writes : nat → write_outcome) (k : nat)
    (save_tasks : list Article) : list entry :=
  match save_tasks with
  | [] => []
  | article :: rest =>
      appended article (writes k) ++ appended_all writes (S k) rest
  end.



(** ** Sample data *)

(** Articles of [tests/test_data_processor.py]. *)
Definition mk_article (symbol title description url : pyval) : Article :=
  <["symbol" := symbol]> (<["title" := title]>
    (<["description" := description]> (<["url" := url]> ∅))).

Definition ARTICLE_VALID_1 : Article :=
  mk_article (PStr "AAPL") (PStr "Apple Event") (PStr "New iPhones announced.")
    (PStr "http://a.com/1").
Definition ARTICLE_VALID_2 : Article :=
  mk_article (PStr "MSFT") (PStr "MSFT Results") (PStr "Earnings beat expectations.")
    (PStr "http://m.com/1").
Definition ARTICLE_MISSING_TITLE : Article :=
  mk_article (PStr "GOOG") PNone (PStr "Search update.") (PStr "http://g.com/1").
Definition ARTICLE_MISSING_DESC : Article :=
  mk_article (PStr "TSLA") (PStr "Tesla Deliveries") PNone (PStr "http://t.com/1").
Definition ARTICLE_EMPTY_TITLE : Article :=
  mk_article (PStr "AMZN") (PStr "") (PStr "Prime Day dates.") (PStr "http://am.com/1").
Definition ARTICLE_EMPTY_DESC : Article :=
  mk_article (PStr "NVDA") (PStr "Nvidia Chip") (PStr "") (PStr "http://n.com/1").
Definition ARTICLE_DUPLICATE_URL : Article :=
  mk_article (PStr "AAPL") (PStr "Apple Event Again") (PStr "Repeated news.")
    (PStr "http://a.com/1").
Definition ARTICLE_MISSING_URL : Article :=
  mk_article (PStr "META") (PStr "Meta News") (PStr "Social media updates.") PNone.
Definition ARTICLE_EMPTY_URL : Article :=
  mk_article (PStr "UBER") (PStr "Uber Ride") (PStr "Ride sharing info.") (PStr "").

Definition TEASER_EMPTY_TITLE : Article :=
  mk_article (PStr "AAPL") (PStr "") (PStr "Teaser.") (PStr "http://a.com/1").

Definition with_sentiment (v : pyval) : Article :=
  <["sentiment" := v]> ARTICLE_VALID_1.

(** A backend that answers every prompt with the same text, and one whose
    every invocation fails. *)
Definition answering (content : string) : LLMService :=
  {| client := Some (λ _ _, Content content) |}.

Definition failing (msg : string) : LLMService :=
  {| client := Some (λ _ _, InvokeException msg) |}.

(** Articles of [tests/test_integration.py]. *)
Definition mk_raw (symbol title description url published_at source : string)
    : Article :=
  <["symbol" := PStr symbol]> (<["title" := PStr title]>
    (<["description" := PStr description]> (<["url" := PStr url]>
      (<["published_at" := PStr published_at]> (<["source" := PStr source]> ∅))))).

Definition MOCK_RAW_ARTICLE_POSITIVE : Article :=
  mk_raw "TESTP" "Good News Inc." "Profits soar unexpectedly."
    "http://test.com/pos" "2024-01-01T12:00:00Z" "TestFeed".
Definition MOCK_RAW_ARTICLE_NEGATIVE : Article :=
  mk_raw "TESTN" "Bad News Corp." "Major setback reported."
    "http://test.com/neg" "2024-01-01T12:01:00Z" "TestFeed".
Definition MOCK_RAW_ARTICLE_NEUTRAL : Article :=
  mk_raw "TESTU" "Neutral News Ltd." "Company holds annual meeting."
    "http://test.com/neu" "2024-01-01T12:02:00Z" "TestFeed".

(** A service whose backend fails on the summarization prompt and answers
    the other two. *)
Definition summary_backend_down : LLMService :=
  {| client := Some (λ system_prompt _,
       if String.eqb system_prompt summarize_system_prompt
       then InvokeException "429 Resource exhausted"
       else if String.eqb system_prompt sentiment_system_prompt
       then Content "Positive"
       else Content "Earnings Beat") |}.

Definition summary_task_raises : enrichment := {|
  main.summarize_text _ := Raised "Simulated failure";
  main.analyze_sentiment _ := Returned (PStr "Negative");
  main.extract_topic _ := Returned (PStr "Guidance Cut")
|}.

(** The answer of the news API for three symbols: the request of the
    second one fails with a rate-limit status. *)
Definition api_item (title description url : string) : api_article :=
  {| members := <["title" := PStr title]> (<["description" := PStr description]>
                  (<["url" := PStr url]>
                    (<["publishedAt" := PStr "2024-01-01T12:00:00Z"]> ∅)));
     source := SourceObject (<["name" := PStr "TestFeed"]> ∅) |}.

Definition http_second_fails (symbol : string) : http_outcome :=
  if String.eqb symbol "TESTP" then
    JsonBody (PStr "ok")
      [api_item "Good News Inc." "Profits soar unexpectedly." "http://test.com/pos"]
  else if String.eqb symbol "TESTN" then
    HTTPStatusError 429 "rateLimited"
  else
    JsonBody (PStr "ok")
      [api_item "Neutral News Ltd." "Company holds annual meeting." "http://test.com/neu"].




(** A pass over one symbol whose only article has a title and a description
    made of blanks. *)
Definition blank_item : api_article :=
  {| members := <["title" := PStr " "]> (<["description" := PStr " "]>
                  (<["url" := PStr "http://test.com/blank"]> ∅));
     source := SourceAbsent |}.

Definition blank_world : cycle_world :=
  {| news_api_key := PStr "key";
     watchlist := ["TESTB"];
     fetch_task := symbol_task (λ _, JsonBody (PStr "ok") [blank_item]);
     llm := llm_enrichment (answering "Neutral");
     writes := λ _, Written;
     elapsed_time := float_of_int 2 |}.

Definition BLANK_ARTICLE : Article :=
  <["symbol" := PStr "TESTB"]> (<["title" := PStr " "]>
    (<["description" := PStr " "]> (<["url" := PStr "http://test.com/blank"]>
      (<["published_at" := PNone]> (<["source" := PNone]> ∅))))).

Definition positive_world : cycle_world :=
  {| news_api_key := PStr "key";
     watchlist := ["TESTP"; "TESTN"];
     fetch_task := symbol_task http_second_fails;
     llm := llm_enrichment (answering "positive");
     writes := λ _, Written;
     elapsed_time := float_of_ratio 261 2 |}.

Definition POSITIVE_RECORD : Article :=
  <["summary" := PStr "positive"]> (<["sentiment" := PStr "Positive"]>
    (<["topic" := PStr "positive"]> MOCK_RAW_ARTICLE_POSITIVE)).

(** The scenario of [tests/test_integration.py]: three symbols, four raw
    articles, and enrichment coroutines that answer by the words of the
    text. *)
Definition MOCK_RAW_ARTICLE_INVALID : Article :=
  mk_article (PStr "TESTI") (PStr "") PNone (PStr "http://test.com/inv").

Definition contains (needle text : string) : bool :=
  match String.index 0 needle text with
  | Some _ => true
  | None => false
  end.

Definition fake_enrichment : enrichment := {|
  main.summarize_text text :=
    Returned (PStr (if contains "Good News" text then "Summary: Good results"
                    else if contains "Bad News" text then "Summary: Bad results"
                    else "Summary: Neutral event"));
  main.analyze_sentiment text :=
    Returned (PStr (if contains "Good News" text then "Positive"
                    else if contains "Bad News" text then "Negative"
                    else "Neutral"));
  main.extract_topic text :=
    Returned (PStr (if contains "Good News" text then "Earnings Beat"
                    else if contains "Bad News" text then "Guidance Cut"
                    else "Meeting"))
|}.

Definition scenario_world : cycle_world :=
  {| news_api_key := PStr "key";
     watchlist := ["TESTP"; "TESTN"; "TESTU"];
     fetch_task symbol :=
       Returned (if String.eqb symbol "TESTP" then [MOCK_RAW_ARTICLE_POSITIVE]
                 else if String.eqb symbol "TESTN" then [MOCK_RAW_ARTICLE_NEGATIVE]
                 else [MOCK_RAW_ARTICLE_NEUTRAL; MOCK_RAW_ARTICLE_INVALID]);
     llm := fake_enrichment;
     writes := λ _, Written;
     elapsed_time := float_of_ratio 261 2 |}.

(** A pass whose writes all fail before a character is written, and the
    scenario with a second write that fails after 17 characters. *)
Definition failing_disk_world : cycle_world :=
  {| news_api_key := PStr "key";
     watchlist := ["TESTP"];
     fetch_task := symbol_task http_second_fails;
     llm := fake_enrichment;
     writes := λ _, Failed 0;
     elapsed_time := float_of_int 1 |}.

Definition torn_write_world : cycle_world :=
  {| news_api_key := news_api_key scenario_world;
     watchlist := watchlist scenario_world;
     fetch_task := fetch_task scenario_world;
     llm := fake_enrichment;
     writes := λ k, if Nat.eqb k 1 then Failed 17 else Written;
     elapsed_time := float_of_ratio 261 2 |}.


(** ** More built-ins: [str.split], [str.join], [str.upper], [os.getenv] *)

Module PyStr.

(** [s.split(sep)] for a one-character separator: the pieces between the
    separators, empty pieces included; [''.split(',')] is [['']]. *)
Fixpoint split_on (sep : ascii) (s : string) : list string :=
  match s with
  | EmptyString => [EmptyString]
  | String c rest =>
      if Ascii.eqb c sep then EmptyString :: split_on sep rest
      else
        match split_on sep rest with
        | piece :: pieces => String c piece :: pieces
        | [] => [String c EmptyString]
        end
  end.

(** [sep.join(pieces)]. *)
Definition join (sep : string) (pieces : list string) : string :=
  String.concat sep pieces.

Fixpoint upper (s : string) : string :=
  match s with
  | EmptyString => EmptyString
  | String c rest => String (upper_char c) (upper rest)
  end.

(** The process environment, [os.getenv(k)] and [os.getenv(k, default)]. *)
Definition getenv (env : gmap string string) (k : string) : pyval :=
  match env !! k with
  | Some v => PStr v
  | None => PNone
  end.

Definition getenv_or (env : gmap string string) (k default : string) : string :=
  match env !! k with
  | Some v => v
  | None => default
  end.

End PyStr.

(** ** [src/config_loader.py] and [src/watchlist.py] *)

Module config_loader.
Import PyStr.

(** The entries of the configuration dictionary that the agent reads. *)
Record config : Type := {
  news_api_key : pyval;
  llm_api_key : pyval;
  llm_model_name : pyval;
  watchlist_symbols : list string;
  slack_webhook_url : pyval;
  log_level : string
}.

(** [[s.strip() for s in value.split(',') if s.strip()]]. *)
Definition parse_symbols (value : string) : list string :=
  strip <$> filter (λ s, truthy (PStr (strip s)) = true) (split_on "," value).

Definition get_config (env : gmap string string) : config := {|
  news_api_key := getenv env "NEWS_API_KEY";
  llm_api_key := getenv env "LLM_API_KEY";
  llm_model_name := PStr (getenv_or env "LLM_MODEL_NAME" "default_model");
  watchlist_symbols := parse_symbols (getenv_or env "WATCHLIST_SYMBOLS" "");
  slack_webhook_url := getenv env "SLACK_WEBHOOK_URL";
  log_level := upper (getenv_or env "LOG_LEVEL" "INFO")
|}.

(** [get_watchlist] of [src/watchlist.py]. *)
Definition get_watchlist (env : gmap string string) : list string :=
  watchlist_symbols (get_config env).

End config_loader.

(** ** [LLMService._initialize_client] and the start of the agent *)

Module llm_startup.
Import llm_service.

Definition DEFAULT_MODEL : string := "gemini-1.5-pro".

(** The model name handed to the client constructor. *)
Definition model_name (cfg : config_loader.config) : string :=
  match config_loader.llm_model_name cfg with
  | PStr name => if truthy (PStr name) then name else DEFAULT_MODEL
  | PNone => DEFAULT_MODEL
  end.

(** [_initialize_client]: without an API key no client is built; an
    exception of the constructor is logged and gives no client; a failure
    of the test prompt is only logged. *)
Definition _initialize_client (cfg : config_loader.config)
    (construct : string -> string -> pyresult (string -> string -> backend_reply))
    : option (string -> string -> backend_reply) :=
  match config_loader.llm_api_key cfg with
  | PStr api_key =>
      if truthy (PStr api_key) then
        match construct (model_name cfg) api_key with
        | Ok client => Some client
        | Raise _ => None
        end
      else None
  | PNone => None
  end.



End llm_startup.

(** ** [src/alerting_service.py] *)

Module alerting_service.

Record WebhookClient : Type := { url : string }.

(** What [client.send] does: an HTTP response, or an exception. *)
Inductive send_result : Type :=
  | Response (status_code : nat) (body : string)
  | SendException (msg : string).

(** [_initialize_webhook_client] over the module-level [_webhook_client]:
    the client it returns and the value of the global afterwards. *)
Definition _initialize_webhook_client (_webhook_client : option WebhookClient)
    (webhook_url : pyval) (construct : string -> pyresult WebhookClient)
    : option WebhookClient * option WebhookClient :=
  match _webhook_client with
  | Some client => (Some client, Some client)
  | None =>
      match webhook_url with
      | PStr u =>
          if truthy (PStr u) then
            match construct u with
            | Ok client => (Some client, Some client)
            | Raise _ => (None, None)
            end
          else (None, None)
      | PNone => (None, None)
      end
  end.

(** The state of the module and of the channel: the cached client and the
    requests made so far. *)
Record slack_state (B : Type) : Type := {
  cached : option WebhookClient;
  requests : list (WebhookClient * string * B)
}.
Arguments cached {B} _.
Arguments requests {B} _.

(** [send_slack_alert(text, blocks)]: its result and the state afterwards. *)
Definition send_slack_alert {B : Type} (st : slack_state B) (webhook_url : pyval)
    (construct : string -> pyresult WebhookClient)
    (send : WebhookClient -> string -> B -> send_result)
    (text : string) (blocks : B) : bool * slack_state B :=
  let '(client, global) := _initialize_webhook_client (cached st) webhook_url construct in
  match client with
  | None => (false, {| cached := global; requests := requests st |})
  | Some c =>
      let st' := {| cached := global; requests := requests st ++ [(c, text, blocks)] |} in
      match send c text blocks with
      | Response status_code _ => (Nat.eqb status_code 200, st')
      | SendException _ => (false, st')
      end
  end.

End alerting_service.

(** ** Vocabulary of the further statements *)

(** Every character of the string is whitespace. *)
Definition all_space (s : string) : bool := forallb isspace (characters s).

(** The character occurs in the string. *)
Fixpoint has_char (x : ascii) (s : string) : bool :=
  match s with
  | EmptyString => false
  | String c rest => Ascii.eqb c x || has_char x rest
  end.

(** The dictionary [fetch_news_for_symbol] builds for one API article. *)
Definition raw_article (symbol : string) (a : api_article) (name : pyval) : Article :=
  <["symbol" := PStr symbol]>
    (<["title" := dict_get (members a) "title"]>
    (<["description" := dict_get (members a) "description"]>
    (<["url" := dict_get (members a) "url"]>
    (<["published_at" := dict_get (members a) "publishedAt"]>
    (<["source" := name]> ∅))))).

(** The API articles before the first one whose ["source"] is null, each
    with the name of its source. *)
Fixpoint readable_prefix (articles : list api_article) : list (api_article * pyval) :=
  match articles with
  | [] => []
  | a :: rest =>
      match source_name a with
      | Ok name => (a, name) :: readable_prefix rest
      | Raise _ => []
      end
  end.

(** The non-empty urls of a list of articles. *)
Definition nonempty_urls (l : list Article) : list string :=
  omap (λ a, match dict_get a "url" with
             | PStr u => if truthy (PStr u) then Some u else None
             | PNone => None
             end) l.

(** A watchlist symbol as the configuration stores it: trimmed, not empty
    and without a comma. *)
Definition clean_symbol (s : string) : Prop :=
  strip s = s ∧ s ≠ "" ∧ has_char "," s = false.

(** A well-formed character: a byte followed by continuation bytes
    only. *)
Definition continuation_only (s : string) : Prop :=
  Forall (λ c, is_continuation c = true) (list_ascii_of_string s).

Definition well_formed_character (ch : string) : Prop :=
  match ch with
  | EmptyString => False
  | String _ tail => continuation_only tail
  end.

(** A list of characters as [characters] produces it: every character is
    well formed and only the first may begin with a continuation byte. *)
Definition segmented (chs : list string) : Prop :=
  Forall well_formed_character chs ∧
  Forall (λ ch, starts_with_continuation ch = false) (tail chs).

Definition null_source_item : api_article :=
  {| members := <["title" := PStr "Untitled"]> ∅; source := SourceNull |}.

Definition null_title_world : cycle_world :=
  {| news_api_key := PStr "key";
     watchlist := ["TESTP"; "TESTI"];
     fetch_task symbol :=
       Returned (if String.eqb symbol "TESTP" then [MOCK_RAW_ARTICLE_POSITIVE]
                 else [ARTICLE_MISSING_TITLE]);
     llm := fake_enrichment;
     writes := λ _, Written;
     elapsed_time := float_of_ratio 261 2 |}.


(** A string of ASCII characters only. *)
Definition is_ascii (s : string) : bool :=
  forallb (λ c, (nat_of_ascii c <? 128)%nat) (list_ascii_of_string s).

(** U+00A0 NO-BREAK SPACE, in UTF-8. *)
Definition no_break_space : string :=
  String (ascii_of_nat 194) (String (ascii_of_nat 160) EmptyString).

(** * Properties *)

(** ** The article filter *)

Example test_filter_articles_duplicate_urls :
  filter_articles [ARTICLE_VALID_1; ARTICLE_VALID_2; ARTICLE_DUPLICATE_URL]
  = Ok [ARTICLE_VALID_1; ARTICLE_VALID_2].
Proof. compute_done. Qed.

Example test_filter_articles_missing_or_empty_urls :
  filter_articles [ARTICLE_VALID_1; ARTICLE_MISSING_URL; ARTICLE_EMPTY_URL; ARTICLE_VALID_2]
  = Ok [ARTICLE_VALID_1; ARTICLE_MISSING_URL; ARTICLE_EMPTY_URL; ARTICLE_VALID_2].
Proof. compute_done. Qed.

Section filter_loop_facts.
Implicit Types (l : list Article) (seen : gset string) (a x : Article).

Lemma truthy_str_nonempty u : truthy (PStr u) = true ↔ u ≠ "".
Proof.
  simpl. rewrite negb_true_iff. split.
  - intros H ->. discriminate.
  - intros H. destruct (String.eqb_spec u ""); congruence.
Qed.

Lemma filter_loop_ok l : ∀ seen acc,
  Forall (λ x, dict_get x "title" ≠ PNone) l →
  filter_loop l seen acc = Ok (acc ++ kept l seen).
Proof.
  induction l as [|a l IH]; intros seen acc Hnn; simpl.
  - by rewrite app_nil_r.
  - inversion Hnn as [|? ? Ha Hl]; subst.
    unfold accepts, seen_step, accepts, content_ok.
    destruct (dict_get a "title") as [|t] eqn:Ht; [done|].
    destruct (truthy (PStr t)) eqn:Htt; simpl.
    2:{ by apply IH. }
    destruct (truthy (dict_get a "description")) eqn:Hd; simpl.
    2:{ by apply IH. }
    destruct (set_contains (dict_get a "url") seen) eqn:Hs; simpl.
    { by apply IH. }
    destruct (dict_get a "url") as [|u]; simpl;
      rewrite IH by done; by rewrite <- app_assoc.
Qed.

Lemma filter_loop_raise l : ∀ seen acc,
  Exists (λ x, dict_get x "title" = PNone) l →
  filter_loop l seen acc = Raise (TypeError "'NoneType' object is not subscriptable").
Proof.
induction l as [|a l IH]; intros seen acc Hex; simpl.
- inversion Hex.
- destruct (dict_get a "title") as [|t] eqn:Ht; simpl; [done|].
  inversion Hex as [? ? Ha|? ? Hl]; subst; [congruence|].
  destruct (_ || _); [by apply IH|].
  destruct (set_contains _ _); by apply IH.
Qed.

Lemma seen_step_mono seen a : seen ⊆ seen_step seen a.
Proof.
  unfold seen_step. destruct (accepts seen a); [|done].
  destruct (dict_get a "url") as [|u]; [done|].
  destruct (truthy (PStr u)); set_solver.
Qed.

Lemma seen_after_mono l : ∀ seen, seen ⊆ seen_after l seen.
Proof.
  induction l as [|a l IH]; intros seen; simpl; [done|].
  etrans; [apply (seen_step_mono seen a)|apply IH].
Qed.

Lemma kept_app l1 l2 : ∀ seen,
  kept (l1 ++ l2) seen = kept l1 seen ++ kept l2 (seen_after l1 seen).
Proof.
  induction l1 as [|a l1 IH]; intros seen; simpl; [done|].
  destruct (accepts seen a) eqn:Ha.
  - by rewrite IH.
  - rewrite IH. unfold seen_step. by rewrite Ha.
Qed.

Lemma kept_sublist l : ∀ seen, sublist (kept l seen) l.
Proof.
  induction l as [|a l IH]; intros seen; simpl; [constructor|].
  destruct (accepts seen a); [apply sublist_skip|apply sublist_cons]; apply IH.
Qed.

Lemma kept_content l : ∀ seen x, x ∈ kept l seen → content_ok x = true.
Proof.
  induction l as [|a l IH]; intros seen x; simpl; [by intros ?%elem_of_nil|].
  destruct (accepts seen a) eqn:Ha; [|by apply IH].
  intros [->|Hx]%elem_of_cons; [|by eapply IH].
  unfold accepts in Ha. by apply andb_true_iff in Ha as [? _].
Qed.

Lemma kept_not_seen l : ∀ seen x u,
  x ∈ kept l seen → dict_get x "url" = PStr u → u ∉ seen.
Proof.
  induction l as [|a l IH]; intros seen x u; simpl; [by intros ?%elem_of_nil|].
  destruct (accepts seen a) eqn:Ha; [|by apply IH].
  intros [->|Hx]%elem_of_cons Hu.
  - unfold accepts in Ha. apply andb_true_iff in Ha as [_ Ha].
    rewrite Hu in Ha. simpl in Ha. apply negb_true_iff in Ha.
    by apply bool_decide_eq_false in Ha.
  - intros Hin. eapply IH; [done..|]. by apply seen_step_mono.
Qed.

Lemma seen_after_covers l : ∀ seen x u,
  x ∈ l → content_ok x = true → u ≠ "" → dict_get x "url" = PStr u →
  u ∈ seen_after l seen.
Proof.
  induction l as [|a l IH]; intros seen x u; simpl; [by intros ?%elem_of_nil|].
  intros [->|Hx]%elem_of_cons Hc Hne Hu; [|by eapply IH].
  apply seen_after_mono. unfold seen_step, accepts.
  rewrite Hc, Hu. simpl.
  destruct (bool_decide (u ∈ seen)) eqn:Hs; simpl.
  - by apply bool_decide_eq_true in Hs.
  - apply truthy_str_nonempty in Hne. simpl in Hne. rewrite Hne. set_solver.
Qed.

Lemma seen_after_origin l : ∀ seen u,
  u ∈ seen_after l seen →
  u ∈ seen ∨ (u ≠ "" ∧ ∃ x, x ∈ l ∧ content_ok x = true ∧ dict_get x "url" = PStr u).
Proof.
  induction l as [|a l IH]; intros seen u; simpl; [by left|].
  intros [Hin|(Hne & x & Hx & Hc & Hu)]%IH.
  - unfold seen_step in Hin. destruct (accepts seen a) eqn:Ha; [|by left].
    destruct (dict_get a "url") as [|v] eqn:Hv; [by left|].
    destruct (truthy (PStr v)) eqn:Hvt; [|by left].
    apply elem_of_union in Hin as [->%elem_of_singleton|?]; [|by left].
    right. split; [by apply truthy_str_nonempty|].
    exists a. split_and!; [by left| |done].
    unfold accepts in Ha. by apply andb_true_iff in Ha as [? _].
  - right. split; [done|]. exists x. split_and!; [by right|done..].
Qed.
End filter_loop_facts.

(** Without a null title the loop runs to its end and returns [kept]. *)
Lemma filter_articles_returns (articles : list Article) :
  Forall (λ x, dict_get x "title" ≠ PNone) articles →
  filter_articles articles = Ok (kept articles ∅).
Proof. intros H. unfold filter_articles. by rewrite filter_loop_ok. Qed.

(** Content gate on the inputs the loop survives: what is returned has a
    non-empty title and description. *)
Lemma filter_articles_content_gate (articles out : list Article) (x : Article) :
  filter_articles articles = Ok out → x ∈ out → content_ok x = true.
Proof.
  intros Hout Hx.
  destruct (decide (Exists (λ x, dict_get x "title" = PNone) articles)) as [Hex|Hno].
  - pose proof (filter_loop_raise articles ∅ [] Hex) as He.
    unfold filter_articles in Hout. congruence.
  - rewrite filter_articles_returns in Hout.
    + injection Hout as <-. by eapply kept_content.
    + apply Forall_forall. intros y Hy Hnone. apply Hno, Exists_exists. eauto.
Qed.

(** C1, as stated, fails: the first article carrying the url is dropped by
    the content gate, its url is never recorded, and the later article with
    the same url is the one returned. *)
Lemma filter_articles_first_url_occurrence_dropped :
  dict_get TEASER_EMPTY_TITLE "url" = PStr "http://a.com/1" ∧
  dict_get ARTICLE_VALID_1 "url" = PStr "http://a.com/1" ∧
  TEASER_EMPTY_TITLE ≠ ARTICLE_VALID_1 ∧
  filter_articles [TEASER_EMPTY_TITLE; ARTICLE_VALID_1] = Ok [ARTICLE_VALID_1].
Proof. split_and!; compute_done. Qed.

(** C1 (amended): on an input without a null title, [filter_articles]
    returns a subsequence of its input.  An article that passes the content
    gate is returned, at its place, unless an earlier article that passed
    the gate carries the same non-empty url; in that case it is dropped.
    In particular an article with an empty or absent url is never dropped
    as a duplicate, and the returned article is the only one with its
    non-empty url in the output. *)
Theorem filter_articles_dedup (articles : list Article) :
  Forall (λ x, dict_get x "title" ≠ PNone) articles →
  ∃ out,
    filter_articles articles = Ok out ∧
    sublist out articles ∧
    ∀ l1 a l2, articles = l1 ++ a :: l2 → content_ok a = true →
      (truthy (dict_get a "url") = false → ¬ url_seen_before l1 a) ∧
      (¬ url_seen_before l1 a →
         ∃ out1 out2,
           out = out1 ++ a :: out2 ∧
           filter_articles l1 = Ok out1 ∧ sublist out2 l2 ∧
           ∀ u x, u ≠ "" → dict_get a "url" = PStr u →
                  x ∈ out1 ++ out2 → dict_get x "url" ≠ PStr u) ∧
      (url_seen_before l1 a →
         ∃ out1 out2,
           out = out1 ++ out2 ∧
           filter_articles l1 = Ok out1 ∧ sublist out2 l2).
Proof.
  intros Hnn. exists (kept articles ∅).
  split; [by apply filter_articles_returns|].
  split; [apply kept_sublist|].
  intros l1 a l2 -> Hc.
  apply Forall_app in Hnn as [Hnn1 _].
  rewrite kept_app. simpl.
  split; [|split].
  - intros Hf (x & u & _ & _ & Hne & _ & Hu).
    rewrite Hu in Hf. apply truthy_str_nonempty in Hne. congruence.
  - intros Hfresh.
    assert (accepts (seen_after l1 ∅) a = true) as Hacc.
    { unfold accepts. rewrite Hc. simpl.
      destruct (dict_get a "url") as [|u] eqn:Hu; [done|]. simpl.
      apply negb_true_iff, bool_decide_eq_false. intros Hin.
      apply seen_after_origin in Hin as [Hin|(Hne & x & Hx & Hcx & Hux)].
      - set_solver.
      - apply Hfresh. exists x, u. done. }
    rewrite Hacc.
    exists (kept l1 ∅), (kept l2 (seen_step (seen_after l1 ∅) a)).
    split_and!; [done|by apply filter_articles_returns|apply kept_sublist|].
    intros u x Hne Hu [Hx|Hx]%elem_of_app Hxu.
    + apply Hfresh. exists x, u. split_and!; try done.
      * eapply elem_of_sublist; [done|apply kept_sublist].
      * by eapply kept_content.
    + eapply kept_not_seen; [done..|].
      unfold seen_step. rewrite Hacc, Hu.
      apply truthy_str_nonempty in Hne. rewrite Hne. set_solver.
  - intros (x & u & Hx & Hcx & Hne & Hux & Hu).
    assert (accepts (seen_after l1 ∅) a = false) as Hacc.
    { unfold accepts. rewrite Hc, Hu. simpl.
      apply negb_false_iff, bool_decide_eq_true.
      by eapply seen_after_covers. }
    rewrite Hacc.
    exists (kept l1 ∅), (kept l2 (seen_after l1 ∅)).
    split_and!; [done|by apply filter_articles_returns|apply kept_sublist].
Qed.

Lemma filter_articles_dedup_witness :
  ∃ out,
    filter_articles [ARTICLE_VALID_1; ARTICLE_EMPTY_URL; ARTICLE_DUPLICATE_URL] = Ok out ∧
    sublist out [ARTICLE_VALID_1; ARTICLE_EMPTY_URL; ARTICLE_DUPLICATE_URL] ∧
    ∃ out1 out2,
      out = out1 ++ out2 ∧
      filter_articles [ARTICLE_VALID_1; ARTICLE_EMPTY_URL] = Ok out1 ∧
      sublist out2 [].
Proof.
  destruct (filter_articles_dedup
              [ARTICLE_VALID_1; ARTICLE_EMPTY_URL; ARTICLE_DUPLICATE_URL])
    as (out & Hout & Hsub & Hpos).
  - repeat constructor; vm_compute; discriminate.
  - exists out. split; [assumption|]. split; [assumption|].
    destruct (Hpos [ARTICLE_VALID_1; ARTICLE_EMPTY_URL] ARTICLE_DUPLICATE_URL [])
      as (_ & _ & Hdup).
    + reflexivity.
    + vm_compute. reflexivity.
    + apply Hdup.
      exists ARTICLE_VALID_1, "http://a.com/1".
      split; [left|]. split; [vm_compute; reflexivity|].
      split; [discriminate|]. split; vm_compute; reflexivity.
Defined.

(** C2: the content gate is not reached on a null title.  The second
    article has [title = None]; instead of returning the first article
    alone, the call raises out of the first [logger.debug] f-string. *)
Theorem filter_articles_null_title_no_output :
  content_ok ARTICLE_VALID_1 = true ∧
  dict_get ARTICLE_MISSING_TITLE "title" = PNone ∧
  filter_articles [ARTICLE_VALID_1; ARTICLE_MISSING_TITLE]
  = Raise (TypeError "'NoneType' object is not subscriptable").
Proof. split_and!; compute_done. Qed.

(** C3: [filter_articles] is not total.  Whenever some article of the input
    has a null or absent title, a [TypeError] escapes to the caller and no
    list is returned. *)
Theorem filter_articles_raises_on_null_title (articles : list Article) :
  Exists (λ x, dict_get x "title" = PNone) articles →
  filter_articles articles
  = Raise (TypeError "'NoneType' object is not subscriptable").
Proof. intros H. by apply filter_loop_raise. Qed.

Lemma filter_articles_raises_on_null_title_witness :
  filter_articles
    [ARTICLE_VALID_1; ARTICLE_MISSING_TITLE; ARTICLE_VALID_2;
     ARTICLE_MISSING_DESC; ARTICLE_EMPTY_TITLE; ARTICLE_EMPTY_DESC]
  = Raise (TypeError "'NoneType' object is not subscriptable").
Proof.
  apply filter_articles_raises_on_null_title.
  apply Exists_cons_tl, Exists_cons_hd. vm_compute. reflexivity.
Defined.

(** ** The notification trigger *)

Lemma trigger_alert_delivers_iff (a : Article) :
  is_Some (delivery (trigger_alert_if_needed a)) ↔ significant a.
Proof.
  unfold trigger_alert_if_needed, significant.
  destruct (dict_get a "sentiment") as [|s] eqn:Hs.
  - simpl. split; [by intros [? ?]|by intros [?|?]].
  - case_bool_decide as Hin.
    + assert (truthy (PStr s) = true) as ->.
      { apply elem_of_cons in Hin as [[= ->]|Hin]; [done|].
        apply elem_of_cons in Hin as [[= ->]|Hin]; [done|].
        by apply elem_of_nil in Hin. }
      simpl. split; [|by eexists].
      intros _. apply elem_of_cons in Hin as [->|Hin]; [by left|].
      apply elem_of_cons in Hin as [->|Hin]; [by right|].
      by apply elem_of_nil in Hin.
    + rewrite andb_false_r.
      split.
      * destruct (truthy (PStr s) && startswith s "Error:"); by intros [? ?].
      * intros [[= ->] | [= ->]]; exfalso; apply Hin; [by left|by right; left].
Qed.

(** C4: the trigger hands an article to the delivery call exactly when its
    sentiment is ["Positive"] or ["Negative"]; never for ["Neutral"], for
    an absent sentiment or for an error marker; over a list of articles the
    number of deliveries is the number of articles with such a sentiment. *)
Theorem trigger_alert_sentiment_gating :
  (∀ a, is_Some (delivery (trigger_alert_if_needed a)) ↔ significant a) ∧
  (∀ a, dict_get a "sentiment" = PStr "Neutral" →
        trigger_alert_if_needed a = NoAlert) ∧
  (∀ a, dict_get a "sentiment" = PNone → trigger_alert_if_needed a = NoAlert) ∧
  (∀ a cause, dict_get a "sentiment" = PStr ("Error: " +:+ cause) →
        trigger_alert_if_needed a = SkipWarning) ∧
  (∀ l : list Article,
     length (omap (λ a, delivery (trigger_alert_if_needed a)) l)
     = length (filter significant l)).
Proof.
  split_and!.
  - apply trigger_alert_delivers_iff.
  - intros a H. unfold trigger_alert_if_needed. by rewrite H.
  - intros a H. unfold trigger_alert_if_needed. by rewrite H.
  - intros a cause H. unfold trigger_alert_if_needed. rewrite H.
    case_bool_decide as Hin.
    + exfalso.
      apply elem_of_cons in Hin as [Heq|Hin]; [discriminate Heq|].
      apply elem_of_cons in Hin as [Heq|Hin]; [discriminate Heq|].
      by apply elem_of_nil in Hin.
    + by rewrite andb_false_r.
  - induction l as [|a l IH]; [done|].
    rewrite filter_cons. simpl.
    destruct (decide (significant a)) as [Hs|Hs].
    + apply trigger_alert_delivers_iff in Hs as [c ->]. simpl. f_equal. exact IH.
    + destruct (delivery (trigger_alert_if_needed a)) eqn:Hd; [|exact IH].
      exfalso. apply Hs, trigger_alert_delivers_iff. by eexists.
Qed.

Lemma trigger_alert_sentiment_gating_witness :
  trigger_alert_if_needed (with_sentiment (PStr "Neutral")) = NoAlert ∧
  trigger_alert_if_needed (with_sentiment PNone) = NoAlert ∧
  trigger_alert_if_needed (with_sentiment (PStr "Error: timeout")) = SkipWarning ∧
  is_Some (delivery (trigger_alert_if_needed (with_sentiment (PStr "Negative")))).
Proof.
  destruct trigger_alert_sentiment_gating as (Hiff & Hneu & Hnone & Herr & _).
  split_and!.
  - apply Hneu. vm_compute. reflexivity.
  - apply Hnone. vm_compute. reflexivity.
  - apply (Herr _ "timeout"). vm_compute. reflexivity.
  - apply Hiff. right. vm_compute. reflexivity.
Defined.

(** ** Sleep arithmetic *)

Lemma digits2_pos_lower (m : positive) :
  (2 ^ (Z.pos (digits2_pos m) - 1) <= Z.pos m)%Z.
Proof.
  induction m as [m IH|m IH|]; simpl digits2_pos.
  - rewrite Pos2Z.inj_succ.
    replace (Z.succ (Z.pos (digits2_pos m)) - 1)%Z
      with (Z.succ (Z.pos (digits2_pos m) - 1))%Z by lia.
    rewrite Z.pow_succ_r by lia. lia.
  - rewrite Pos2Z.inj_succ.
    replace (Z.succ (Z.pos (digits2_pos m)) - 1)%Z
      with (Z.succ (Z.pos (digits2_pos m) - 1))%Z by lia.
    rewrite Z.pow_succ_r by lia. lia.
  - simpl. lia.
Qed.

Lemma iter_xO (d m : positive) : Z.pos (Pos.iter xO m d) = (Z.pos m * 2 ^ Z.pos d)%Z.
Proof.
  change (Pos.iter xO m d) with (shift_pos d m).
  rewrite shift_pos_correct, Zpower_pos_powerRZ || rewrite shift_pos_correct.
  rewrite Z.pow_pos_fold. lia.
Qed.

Lemma binary_round_aux_not_positive mx ex lx :
  SFltb (S754_zero false) (binary_round_aux prec emax true mx ex lx) = false.
Proof.
  unfold binary_round_aux.
  destruct (shr_fexp prec emax mx ex lx) as [mrs' e'].
  destruct (shr_fexp prec emax _ e' loc_Exact) as [mrs'' e''].
  destruct (shr_m mrs''); [reflexivity| |reflexivity].
  destruct (Z.leb e'' (emax - prec)); reflexivity.
Qed.

Lemma binary_normalize_not_positive (m e : Z) :
  (m <= 0)%Z →
  SFltb (S754_zero false) (binary_normalize prec emax m e false) = false.
Proof.
  intros Hm. destruct m as [|p|p]; [reflexivity|lia|].
  unfold binary_normalize, binary_round.
  destruct (shl_align _ _ _) as [mz ez]. apply binary_round_aux_not_positive.
Qed.

Lemma sleep_time_overrun (elapsed : spec_float) :
  valid_binary prec emax elapsed = true →
  SFleb (float_of_int FETCH_INTERVAL_SECONDS) elapsed = true →
  sleep_time elapsed = PInt 0.
Proof.
  intros Hv Hle. unfold sleep_time.
  change (float_of_int FETCH_INTERVAL_SECONDS)
    with (S754_finite false 7916483719987200 (-43)) in *.
  change (float_of_int 0) with (S754_zero false).
  destruct elapsed as [s|s| |s m e]; try discriminate Hle.
  - destruct s; [discriminate Hle|reflexivity].
  - destruct s; [discriminate Hle|].
    cbv beta iota delta [SFsub].
    rewrite binary_normalize_not_positive; [reflexivity|].
    unfold SFleb, SFcompare in Hle.
    unfold valid_binary, bounded, canonical_mantissa, fexp, SpecFloat.emin in Hv.
    apply andb_prop in Hv as [Hc _]. apply Z.eqb_eq in Hc.
    unfold cond_Zopp, shl_align.
    destruct (Z.compare_spec (-43) e) as [He|He|He].
    + subst e. rewrite Z.min_id. simpl Z.sub. cbv iota. simpl fst.
      change (PosDef.Pos.compare_cont Eq 7916483719987200 m)
        with (Pos.compare 7916483719987200 m) in Hle.
      destruct (Pos.compare_spec 7916483719987200 m) as [Hm|Hm|Hm];
        [lia|lia|discriminate Hle].
    + rewrite Z.min_l by lia. rewrite Z.sub_diag. cbv iota. simpl fst.
      destruct (-43 - e)%Z as [|d|d] eqn:Hd; [lia|lia|]. simpl fst.
      rewrite iter_xO.
      pose proof (digits2_pos_lower m) as Hdig.
      assert (Z.pos (digits2_pos m) = 53)%Z as H53 by (unfold prec, emax in Hc; lia).
      rewrite H53 in Hdig. simpl in Hdig.
      assert (2 <= 2 ^ Z.pos d)%Z.
      { change 2%Z with (2 ^ 1)%Z at 1. apply Z.pow_le_mono_r; lia. }
      nia.
    + discriminate Hle.
Qed.

Lemma digits2_pos_upper (m : positive) :
  (Z.pos m < 2 ^ Z.pos (digits2_pos m))%Z.
Proof.
  induction m as [m IH|m IH|]; simpl digits2_pos.
  - rewrite Pos2Z.inj_succ, Z.pow_succ_r by lia. lia.
  - rewrite Pos2Z.inj_succ, Z.pow_succ_r by lia. lia.
  - simpl. lia.
Qed.

Lemma shr_m_shr_1 (mrs : shr_record) :
  (0 <= shr_m mrs)%Z → shr_m (shr_1 mrs) = Z.div2 (shr_m mrs).
Proof.
  destruct mrs as [m r s]. simpl. intros Hm.
  destruct m as [|[p|p|]|p]; try reflexivity. lia.
Qed.

Lemma shr_m_iter_pos (p : positive) : ∀ mrs,
  (0 <= shr_m mrs)%Z →
  shr_m (SpecFloat.iter_pos shr_1 p mrs) = Z.shiftr (shr_m mrs) (Z.pos p).
Proof.
  assert (∀ m, 0 <= m → 0 <= Z.div2 m)%Z as Hdiv2.
  { intros m Hm. rewrite Z.div2_div. apply Z.div_pos; lia. }
  induction p as [p IH|p IH|]; intros mrs Hm; simpl SpecFloat.iter_pos.
  - rewrite IH, IH, shr_m_shr_1 by
      (rewrite ?IH, ?shr_m_shr_1 by (rewrite ?shr_m_shr_1; auto);
       try apply Z.shiftr_nonneg; auto).
    rewrite Z.div2_spec, !Z.shiftr_shiftr by lia. f_equal. lia.
  - rewrite IH, IH by (rewrite ?IH by done; try apply Z.shiftr_nonneg; done).
    rewrite !Z.shiftr_shiftr by lia. f_equal. lia.
  - rewrite shr_m_shr_1 by done. apply Z.div2_spec.
Qed.

(** Shifting to the exponent of the format keeps a positive mantissa
    positive when the exponent is not below the least one. *)
Lemma shr_fexp_positive (m : positive) (e : Z) (l : location) :
  (SpecFloat.emin prec emax <= e)%Z →
  (0 < shr_m (shr_fexp prec emax (Z.pos m) e l).1)%Z ∧
  (SpecFloat.emin prec emax <= (shr_fexp prec emax (Z.pos m) e l).2)%Z.
Proof.
  intros He. unfold shr_fexp, shr, fexp, Zdigits2.
  pose proof (digits2_pos_lower m) as Hlow.
  assert (shr_m (shr_record_of_loc (Z.pos m) l) = Z.pos m) as Hrec
    by (by destruct l as [|[]]).
  destruct (_ - e)%Z as [|p|p] eqn:Hp; simpl; rewrite ?Hrec; [lia| |lia].
  split; [|lia].
  rewrite shr_m_iter_pos by (rewrite Hrec; lia). rewrite Hrec.
  rewrite Z.shiftr_div_pow2 by lia.
  assert (Z.pos p = Z.pos (digits2_pos m) - prec)%Z as Hpd by lia.
  apply Z.div_str_pos. split; [lia|].
  etrans; [|exact Hlow]. apply Z.pow_le_mono_r; unfold prec in *; lia.
Qed.

Lemma round_nearest_even_positive (m : Z) (l : location) :
  (0 < m)%Z → (0 < round_nearest_even m l)%Z.
Proof.
  intros Hm. destruct l as [|[]]; simpl; try lia. destruct (Z.even m); lia.
Qed.

Lemma binary_round_aux_positive (m : positive) (e : Z) (l : location) :
  (SpecFloat.emin prec emax <= e)%Z →
  SFltb (S754_zero false) (binary_round_aux prec emax false (Z.pos m) e l) = true.
Proof.
  intros He. unfold binary_round_aux.
  destruct (shr_fexp_positive m e l He) as [Hm He'].
  destruct (shr_fexp prec emax (Z.pos m) e l) as [mrs' e']. simpl in Hm, He'.
  pose proof (round_nearest_even_positive (shr_m mrs') (loc_of_shr_record mrs') Hm)
    as Hr.
  destruct (round_nearest_even _ _) as [|m'|m']; [lia| |lia].
  destruct (shr_fexp_positive m' e' loc_Exact He') as [Hm'' _].
  destruct (shr_fexp prec emax (Z.pos m') e' loc_Exact) as [mrs'' e''].
  simpl in Hm''. destruct (shr_m mrs''); [lia| |lia].
  by destruct (Z.leb e'' (emax - prec)).
Qed.

Lemma binary_normalize_positive (m e : Z) :
  (0 < m)%Z → (SpecFloat.emin prec emax <= e)%Z →
  SFltb (S754_zero false) (binary_normalize prec emax m e false) = true.
Proof.
  intros Hm He. destruct m as [|p|p]; [lia| |lia].
  unfold binary_normalize, binary_round, shl_align.
  destruct (_ - e)%Z as [|d|d] eqn:Hd; try by apply binary_round_aux_positive.
  apply binary_round_aux_positive. unfold fexp. lia.
Qed.

Lemma valid_binary_finite (s : bool) (m : positive) (e : Z) :
  valid_binary prec emax (S754_finite s m e) = true →
  (SpecFloat.emin prec emax <= e)%Z ∧
  (Z.pos (digits2_pos m) <= prec)%Z ∧
  (SpecFloat.emin prec emax < e → Z.pos (digits2_pos m) = prec)%Z.
Proof.
  unfold valid_binary, bounded, canonical_mantissa, fexp.
  intros [Hc _]%andb_prop. apply Z.eqb_eq in Hc. lia.
Qed.

Lemma SFcompare_finite_pos (m1 m2 : positive) (e1 e2 : Z) :
  SFcompare (S754_finite false m1 e1) (S754_finite false m2 e2)
  = Some match Z.compare e1 e2 with
         | Eq => Pos.compare m1 m2
         | Lt => Lt
         | Gt => Gt
         end.
Proof. reflexivity. Qed.

Lemma sleep_time_under (elapsed : spec_float) :
  valid_binary prec emax elapsed = true →
  SFltb elapsed (float_of_int FETCH_INTERVAL_SECONDS) = true →
  sleep_time elapsed
  = PFloat (SFsub prec emax (float_of_int FETCH_INTERVAL_SECONDS) elapsed).
Proof.
  intros Hv Hlt. unfold sleep_time.
  change (float_of_int FETCH_INTERVAL_SECONDS)
    with (S754_finite false 7916483719987200 (-43)) in *.
  change (float_of_int 0) with (S754_zero false).
  destruct elapsed as [s|s| |s m e]; try discriminate Hlt.
  - reflexivity.
  - destruct s; [reflexivity|discriminate Hlt].
  - destruct (valid_binary_finite s m e Hv) as (Hmin & Hdig & _).
    cbv beta iota delta [SFsub].
    rewrite binary_normalize_positive; [reflexivity| |unfold SpecFloat.emin, prec, emax in *; lia].
    unfold cond_Zopp, shl_align.
    destruct s; [destruct (_ - -43)%Z, (_ - e)%Z; simpl; lia|].
    assert (e < -43 ∨ e = -43 ∧ Z.pos m < 7916483719987200)%Z as Hcase.
    { clear -Hlt. unfold SFltb in Hlt. rewrite SFcompare_finite_pos in Hlt.
      destruct (Z.compare_spec e (-43)) as [He|He|He];
        [right|by left|discriminate Hlt].
      split; [done|]. apply Pos2Z.pos_lt_pos. unfold Pos.lt. revert Hlt. cbv iota.
      by destruct (m ?= 7916483719987200)%positive. }
    clear Hlt.
    pose proof (digits2_pos_upper m) as Hup.
    assert (Z.pos m < 2 ^ 53)%Z as Hm53.
    { eapply Z.lt_le_trans; [exact Hup|]. apply Z.pow_le_mono_r; unfold prec in *; lia. }
    destruct Hcase as [He|[-> Hm]].
    + rewrite Z.min_r by lia. rewrite Z.sub_diag.
      destruct (e - -43)%Z as [|d|d] eqn:Hd; [lia|lia|]. simpl fst.
      rewrite iter_xO.
      assert (2 <= 2 ^ Z.pos d)%Z.
      { change 2%Z with (2 ^ 1)%Z at 1. apply Z.pow_le_mono_r; lia. }
      simpl in Hm53. nia.
    + rewrite Z.min_id. simpl Z.sub. cbv iota. simpl fst. lia.
Qed.

(** C7: the sleep of a cycle is [max(0, interval − elapsed)] with the
    interval 15·60 = 900, computed on binary64 floats as Python does.  At
    130.5 elapsed seconds it is the float 769.5; whenever the elapsed time
    is at least the interval (also when it is infinite) it is the integer
    0; whenever the elapsed time is below the interval it is the rounded
    difference, which is greater than 0; it is never negative, and 0 for a
    NaN.  At elapsed 0.1, a value that is no float, the sleep is the float
    nearest to 900 minus the float nearest to 0.1, as on the machine. *)
Theorem sleep_time_arithmetic :
  FETCH_INTERVAL_SECONDS = 900%Z ∧
  sleep_time (float_of_ratio 261 2) = PFloat (float_of_ratio 1539 2) ∧
  sleep_time (float_of_int 950) = PInt 0 ∧
  Prim2SF 130.5%float = float_of_ratio 261 2 ∧
  Prim2SF (sleep_time_binary64 130.5%float) = float_of_ratio 1539 2 ∧
  sleep_time_binary64 130.5%float = 769.5%float ∧
  sleep_time_binary64 950%float = 0%float ∧
  sleep_time (float_of_ratio 1 10)
    = PFloat (Prim2SF (sleep_time_binary64 (1 / 10)%float)) ∧
  sleep_time (float_of_ratio 1 10) = PFloat (S754_finite false 7915604110684979 (-43)) ∧
  sleep_time S754_nan = PInt 0 ∧
  (∀ elapsed,
     valid_binary prec emax elapsed = true →
     SFleb (float_of_int FETCH_INTERVAL_SECONDS) elapsed = true →
     sleep_time elapsed = PInt 0) ∧
  (∀ elapsed,
     valid_binary prec emax elapsed = true →
     SFltb elapsed (float_of_int FETCH_INTERVAL_SECONDS) = true →
     sleep_time elapsed
     = PFloat (SFsub prec emax (float_of_int FETCH_INTERVAL_SECONDS) elapsed)) ∧
  (∀ elapsed,
     sleep_time elapsed = PInt 0 ∨
     ∃ remaining,
       sleep_time elapsed = PFloat remaining ∧
       remaining = SFsub prec emax (float_of_int FETCH_INTERVAL_SECONDS) elapsed ∧
       SFltb (float_of_int 0) remaining = true).
Proof.
  split_and!; try reflexivity.
  - apply sleep_time_overrun.
  - apply sleep_time_under.
  - intros elapsed. unfold sleep_time.
    destruct (SFltb (float_of_int 0) _) eqn:Hpos; [right|by left].
    eexists. by split_and!.
Qed.

Lemma sleep_time_arithmetic_witness :
  sleep_time (float_of_int 1000) = PInt 0 ∧
  sleep_time (float_of_int 100) = PFloat (float_of_int 800).
Proof.
  destruct sleep_time_arithmetic
    as (_ & _ & _ & _ & _ & _ & _ & _ & _ & _ & Hover & Hunder & _).
  split.
  - apply Hover; reflexivity.
  - rewrite Hunder; reflexivity.
Defined.

(** ** The enrichment client *)

Example analyze_sentiment_normalizes :
  llm_service.analyze_sentiment (answering "  positive
") "Profits soar." = PStr "Positive" ∧
  llm_service.analyze_sentiment (answering "NEUTRAL") "Annual meeting." = PStr "Neutral" ∧
  llm_service.analyze_sentiment (answering "Negative.") "Setback." = PNone.
Proof. split_and!; compute_done. Qed.

(** C5, as stated, fails: a reply that is not one of the three labels and
    a failed backend call give the caller the same value, [None]. *)
Lemma analyze_sentiment_unparseable_same_as_failure :
  llm_service.analyze_sentiment (answering "Bullish") "Profits soar." = PNone ∧
  llm_service.analyze_sentiment (failing "503 Service Unavailable") "Profits soar." = PNone ∧
  llm_service.analyze_sentiment (answering "Bullish") "Profits soar."
  = llm_service.analyze_sentiment (failing "503 Service Unavailable") "Profits soar.".
Proof. split_and!; compute_done. Qed.

(** C5 (amended): [analyze_sentiment] trims and capitalizes the reply of
    the backend.  A reply whose normalized text is one of the three labels
    is returned as that label; any other reply gives [None], which is not
    an error value.  A missing client and a failed backend call give
    [None] as well, so the result is always [None] or one of the labels. *)
Theorem analyze_sentiment_result (svc : LLMService) (text : string) :
  (∀ invoke raw,
     client svc = Some invoke →
     invoke sentiment_system_prompt (sentiment_user_prompt text) = Content raw →
     (capitalize (strip raw) ∈ sentiment_labels →
        llm_service.analyze_sentiment svc text = PStr (capitalize (strip raw))) ∧
     (capitalize (strip raw) ∉ sentiment_labels →
        llm_service.analyze_sentiment svc text = PNone)) ∧
  (∀ invoke,
     client svc = Some invoke →
     (∀ raw, invoke sentiment_system_prompt (sentiment_user_prompt text) ≠ Content raw) →
     llm_service.analyze_sentiment svc text = PNone) ∧
  (client svc = None → llm_service.analyze_sentiment svc text = PNone) ∧
  (llm_service.analyze_sentiment svc text = PNone ∨
   ∃ label, label ∈ sentiment_labels ∧
            llm_service.analyze_sentiment svc text = PStr label).
Proof.
  unfold llm_service.analyze_sentiment, generate_response.
  split_and!.
  - intros invoke raw -> ->. split.
    + intros Hin. rewrite bool_decide_eq_true_2 by done.
      destruct raw as [|c raw]; [|done].
      exfalso. vm_compute in Hin.
      repeat (apply elem_of_cons in Hin as [Heq|Hin]; [discriminate Heq|]).
      by apply elem_of_nil in Hin.
    + intros Hnot. rewrite bool_decide_eq_false_2 by done.
      by destruct (truthy (PStr raw)).
  - intros invoke -> Hno.
    destruct (invoke _ _) as [raw| |] eqn:Hr; [|done..].
    by destruct (Hno raw).
  - by intros ->.
  - destruct (client svc) as [invoke|]; [|by left].
    destruct (invoke _ _) as [raw| |]; [|by left..].
    destruct (truthy (PStr raw)); [|by left].
    case_bool_decide as Hin; [|by left].
    right. by eexists.
Qed.

Lemma analyze_sentiment_result_witness :
  llm_service.analyze_sentiment (answering " negative ") "Setback." = PStr "Negative" ∧
  llm_service.analyze_sentiment (answering "Bullish") "Setback." = PNone ∧
  llm_service.analyze_sentiment (failing "timeout") "Setback." = PNone ∧
  llm_service.analyze_sentiment {| client := None |} "Setback." = PNone.
Proof.
  split_and!.
  - destruct (analyze_sentiment_result (answering " negative ") "Setback.")
      as (H & _).
    destruct (H (λ _ _, Content " negative ") " negative " eq_refl eq_refl)
      as [Hlabel _].
    apply Hlabel. vm_compute. right; left.
  - destruct (analyze_sentiment_result (answering "Bullish") "Setback.")
      as (H & _).
    destruct (H (λ _ _, Content "Bullish") "Bullish" eq_refl eq_refl)
      as [_ Hother].
    apply Hother. vm_compute. intros Hin.
    repeat (apply elem_of_cons in Hin as [Heq|Hin]; [discriminate Heq|]).
    by apply elem_of_nil in Hin.
  - destruct (analyze_sentiment_result (failing "timeout") "Setback.")
      as (_ & H & _).
    apply (H (λ _ _, InvokeException "timeout") eq_refl).
    intros raw. discriminate.
  - destruct (analyze_sentiment_result {| client := None |} "Setback.")
      as (_ & _ & H & _).
    apply H. reflexivity.
Defined.

(** ** The article enricher *)

Section process_single_article_facts.
Variable llm : enrichment.
Implicit Types (a : Article) (k : string).

Lemma process_single_article_blank a :
  blank_text a → process_single_article llm a = a.
Proof.
  unfold blank_text, process_single_article. intros ->. reflexivity.
Qed.

Lemma process_single_article_enriched a :
  ¬ blank_text a →
  process_single_article llm a
  = <["topic" := value_or_error (main.extract_topic llm (text_to_process a))]>
    (<["sentiment" := value_or_error (main.analyze_sentiment llm (text_to_process a))]>
    (<["summary" := value_or_error (main.summarize_text llm (text_to_process a))]> a)).
Proof.
  unfold blank_text, process_single_article. intros Hnb.
  destruct (strip (text_to_process a)) as [|c s] eqn:Hs; [done|].
  reflexivity.
Qed.

Lemma process_single_article_lookup_other a k :
  k ∉ ["summary"; "sentiment"; "topic"; "processing_error"] →
  process_single_article llm a !! k = a !! k.
Proof.
  intros Hk.
  destruct (decide (blank_text a)) as [Hb|Hb].
  - by rewrite process_single_article_blank.
  - rewrite process_single_article_enriched by done.
    rewrite !lookup_insert_ne; [done|set_solver..].
Qed.

Lemma process_single_article_raw_key a k :
  k ∈ raw_keys → process_single_article llm a !! k = a !! k.
Proof.
  intros Hk. apply process_single_article_lookup_other.
  unfold raw_keys in Hk. intros Hin.
  repeat (apply elem_of_cons in Hk as [->|Hk];
          [ clear -Hin;
            repeat (apply elem_of_cons in Hin as [Heq|Hin]; [discriminate Heq|]);
            by apply elem_of_nil in Hin |]).
  by apply elem_of_nil in Hk.
Qed.

Lemma process_single_article_content_ok a :
  content_ok (process_single_article llm a) = content_ok a.
Proof.
  unfold content_ok, dict_get.
  rewrite !process_single_article_raw_key; [done|unfold raw_keys; set_solver..].
Qed.
End process_single_article_facts.

(** C10: enrichment leaves every key other than [summary], [sentiment],
    [topic] and [processing_error] as it found it; in particular the values
    of [symbol], [title], [description], [url], [published_at] and [source]
    of the returned record are those of the input. *)
Theorem process_single_article_frame (llm : enrichment) (a : Article) :
  (∀ k, k ∉ ["summary"; "sentiment"; "topic"; "processing_error"] →
        process_single_article llm a !! k = a !! k) ∧
  (∀ k, k ∈ raw_keys →
        dict_get (process_single_article llm a) k = dict_get a k).
Proof.
  split.
  - intros k. apply process_single_article_lookup_other.
  - intros k Hk. unfold dict_get. by rewrite process_single_article_raw_key.
Qed.

Lemma process_single_article_frame_witness :
  dict_get (process_single_article (llm_enrichment (answering "Positive"))
              MOCK_RAW_ARTICLE_POSITIVE) "title"
  = PStr "Good News Inc." ∧
  process_single_article (llm_enrichment (failing "timeout"))
    MOCK_RAW_ARTICLE_POSITIVE !! "author" = None.
Proof.
  split.
  - destruct (process_single_article_frame (llm_enrichment (answering "Positive"))
                MOCK_RAW_ARTICLE_POSITIVE) as [_ H].
    rewrite H; [vm_compute; reflexivity|].
    unfold raw_keys. right; left.
  - destruct (process_single_article_frame (llm_enrichment (failing "timeout"))
                MOCK_RAW_ARTICLE_POSITIVE) as [H _].
    rewrite H; [vm_compute; reflexivity|].
    intros Hin.
    repeat (apply elem_of_cons in Hin as [Heq|Hin]; [discriminate Heq|]).
    by apply elem_of_nil in Hin.
Defined.

(** C6, as stated, fails: when the backend call of the summary fails, the
    summarization coroutine returns [None] and the field is stored as
    [None]; no error marker is written. *)
Lemma process_single_article_failed_summary_is_null :
  let r := process_single_article (llm_enrichment summary_backend_down)
             MOCK_RAW_ARTICLE_POSITIVE in
  r !! "summary" = Some PNone ∧
  r !! "sentiment" = Some (PStr "Positive") ∧
  r !! "topic" = Some (PStr "Earnings Beat").
Proof. split_and!; compute_done. Qed.

(** C6 (amended): for an article whose text is not blank, each of the
    three fields is set from its own call alone: to the value the call
    returned or, when the call raised, to ["Error: "] followed by the text
    of the exception; all three keys are present.  The coroutines of
    [src/llm_service.py] do not raise on a backend failure: the summary
    call then returns [None] and the field holds [None]. *)
Theorem process_single_article_merge (llm : enrichment) (a : Article) :
  ¬ blank_text a →
  let r := process_single_article llm a in
  let text := text_to_process a in
  has_keys enrichment_keys r ∧
  (∀ v, main.summarize_text llm text = Returned v → r !! "summary" = Some v) ∧
  (∀ cause, main.summarize_text llm text = Raised cause →
            r !! "summary" = Some (PStr ("Error: " +:+ cause))) ∧
  (∀ v, main.analyze_sentiment llm text = Returned v → r !! "sentiment" = Some v) ∧
  (∀ cause, main.analyze_sentiment llm text = Raised cause →
            r !! "sentiment" = Some (PStr ("Error: " +:+ cause))) ∧
  (∀ v, main.extract_topic llm text = Returned v → r !! "topic" = Some v) ∧
  (∀ cause, main.extract_topic llm text = Raised cause →
            r !! "topic" = Some (PStr ("Error: " +:+ cause))) ∧
  (∀ svc invoke,
     llm = llm_enrichment svc → client svc = Some invoke →
     backend_failed (invoke summarize_system_prompt (summarize_user_prompt text)) →
     r !! "summary" = Some PNone).
Proof.
  intros Hnb r text. subst r text.
  rewrite process_single_article_enriched by done.
  split_and!.
  - intros k Hk. unfold enrichment_keys in Hk.
    repeat (apply elem_of_cons in Hk as [->|Hk];
            [rewrite ?lookup_insert_eq, ?lookup_insert_ne by done;
             rewrite ?lookup_insert_eq; by eexists|]).
    by apply elem_of_nil in Hk.
  - intros v ->. by rewrite !lookup_insert_ne, lookup_insert_eq by done.
  - intros c ->. by rewrite !lookup_insert_ne, lookup_insert_eq by done.
  - intros v ->. by rewrite lookup_insert_ne, lookup_insert_eq by done.
  - intros c ->. by rewrite lookup_insert_ne, lookup_insert_eq by done.
  - intros v ->. by rewrite lookup_insert_eq.
  - intros c ->. by rewrite lookup_insert_eq.
  - intros svc invoke -> Hc Hfail.
    rewrite !lookup_insert_ne, lookup_insert_eq by done.
    simpl. unfold llm_service.summarize_text, generate_response. rewrite Hc.
    destruct (invoke _ _) as [content| |] eqn:Hr; [|done..].
    by destruct (Hfail content).
Qed.

Lemma process_single_article_merge_witness :
  let r := process_single_article summary_task_raises MOCK_RAW_ARTICLE_NEGATIVE in
  r !! "summary" = Some (PStr "Error: Simulated failure") ∧
  r !! "sentiment" = Some (PStr "Negative") ∧
  r !! "topic" = Some (PStr "Guidance Cut").
Proof.
  destruct (process_single_article_merge summary_task_raises MOCK_RAW_ARTICLE_NEGATIVE)
    as (_ & _ & Hsum & Hsent & _ & Htopic & _).
  - vm_compute. discriminate.
  - split_and!.
    + apply Hsum. reflexivity.
    + apply Hsent. reflexivity.
    + apply Htopic. reflexivity.
Defined.

(** ** The fetch stage *)

Lemma collect_contributions (results : list (gathered (list Article))) :
  ∀ all_articles,
    collect results all_articles = all_articles ++ flat_map contribution results.
Proof.
  induction results as [|[l|e] results IH]; intros acc; simpl.
  - by rewrite app_nil_r.
  - by rewrite IH, app_assoc.
  - by rewrite IH.
Qed.

Lemma fetch_news_for_watchlist_contributions api_key watchlist task :
  truthy api_key = true →
  fetch_news_for_watchlist api_key watchlist task
  = flat_map (λ s, contribution (task s)) watchlist.
Proof.
  intros Hk. unfold fetch_news_for_watchlist. rewrite Hk. simpl.
  destruct watchlist as [|s w]; [done|].
  rewrite collect_contributions. simpl.
  f_equal. induction w as [|s' w IH]; [done|]. simpl. by rewrite IH.
Qed.


Lemma extract_loop_readable (symbol : string) (articles : list api_article) :
  ∀ articles_list,
    extract_loop symbol articles articles_list
    = articles_list ++ ((λ p, raw_article symbol p.1 p.2) <$> readable_prefix articles).
Proof.
  induction articles as [|a articles IH]; intros acc; simpl.
  - by rewrite app_nil_r.
  - destruct (source_name a) as [name|e]; simpl.
    + rewrite IH, <- app_assoc. reflexivity.
    + by rewrite app_nil_r.
Qed.



Lemma extract_loop_keys symbol articles : ∀ articles_list,
  Forall (has_keys raw_keys) articles_list →
  Forall (has_keys raw_keys) (extract_loop symbol articles articles_list).
Proof.
  induction articles as [|a articles IH]; intros acc Hacc; simpl; [done|].
  destruct (source_name a) as [name|e]; [|done].
  apply IH. apply Forall_app. split; [done|].
  apply Forall_singleton. intros k Hk. unfold raw_keys in Hk.
  repeat (apply elem_of_cons in Hk as [->|Hk];
          [rewrite ?lookup_insert_eq, ?lookup_insert_ne by done;
           rewrite ?lookup_insert_eq; by eexists|]).
  by apply elem_of_nil in Hk.
Qed.

Lemma fetch_news_for_symbol_keys symbol response a :
  a ∈ fetch_news_for_symbol symbol response → has_keys raw_keys a.
Proof.
  destruct response as [| | |status articles]; simpl; try by intros ?%elem_of_nil.
  case_bool_decide; [|by intros ?%elem_of_nil].
  intros Ha.
  pose proof (extract_loop_keys symbol articles [] (List.Forall_nil _)) as Hall.
  rewrite Forall_forall in Hall. by apply Hall.
Qed.

(** ** The cycle *)

Lemma batches_cover {A} (step : nat) (l : list A) : ∀ m,
  (0 < step)%nat → (length l ≤ m * step)%nat →
  flat_map (λ i, take step (drop i l)) ((λ k, k * step) <$> seq 0 m) = l.
Proof.
  intros m Hstep. revert l.
  induction m as [|m IH]; intros l Hlen.
  - destruct l; [done|simpl in Hlen; lia].
  - change (seq 0 (S m)) with (0 :: seq 1 m).
    rewrite fmap_cons. cbn [flat_map]. rewrite Nat.mul_0_l, drop_0.
    rewrite <- fmap_S_seq, <- list_fmap_compose.
    assert (flat_map (λ i, take step (drop i l)) ((λ k, k * step) ∘ S <$> seq 0 m)
            = flat_map (λ i, take step (drop i (drop step l)))
                ((λ k, k * step) <$> seq 0 m)) as ->.
    { rewrite !flat_map_concat_map, <- !list_fmap_compose. f_equal.
      apply list_fmap_ext. intros i k Hk. simpl.
      by rewrite drop_drop. }
    rewrite IH; [apply take_drop|]. rewrite length_drop. lia.
Qed.

Lemma foldl_extend {A B} (f : A → list B) (l : list A) : ∀ acc,
  foldl (λ acc x, acc ++ f x) acc l = acc ++ flat_map f l.
Proof.
  induction l as [|x l IH]; intros acc; simpl.
  - by rewrite app_nil_r.
  - by rewrite IH, app_assoc.
Qed.

Lemma flat_map_fmap_inner {A B C} (f : B → C) (g : A → list B) (l : list A) :
  flat_map (λ x, f <$> g x) l = f <$> flat_map g l.
Proof.
  induction l as [|x l IH]; simpl; [done|]. by rewrite IH, fmap_app.
Qed.

(** Batching does not change what is processed: every filtered article is
    enriched once, in order. *)
Lemma process_batches_all llm (filtered_articles : list Article) :
  process_batches llm filtered_articles
  = process_single_article llm <$> filtered_articles.
Proof.
  unfold process_batches, batch_starts.
  rewrite (foldl_extend (λ i, process_single_article llm <$>
             take PROCESS_BATCH_SIZE (drop i filtered_articles))).
  rewrite app_nil_l, flat_map_fmap_inner. f_equal.
  apply batches_cover; unfold PROCESS_BATCH_SIZE; [lia|].
  pose proof (Nat.div_mod_eq (length filtered_articles + 5 - 1) 5) as Hd.
  pose proof (Nat.mod_upper_bound (length filtered_articles + 5 - 1) 5) as Hm.
  lia.
Qed.

Lemma filter_articles_inv (articles out : list Article) :
  filter_articles articles = Ok out →
  Forall (λ x, dict_get x "title" ≠ PNone) articles ∧ out = kept articles ∅.
Proof.
  intros Hout.
  destruct (decide (Exists (λ x, dict_get x "title" = PNone) articles)) as [Hex|Hno].
  - pose proof (filter_loop_raise articles ∅ [] Hex) as He.
    unfold filter_articles in Hout. congruence.
  - assert (Forall (λ x, dict_get x "title" ≠ PNone) articles) as Hnn.
    { apply Forall_forall. intros y Hy Hnone. apply Hno, Exists_exists. eauto. }
    split; [done|]. rewrite filter_articles_returns in Hout by done. congruence.
Qed.

Lemma finalize_tasks_ok (processed_articles : list Article) :
  Forall (λ a, content_ok a = true) processed_articles →
  finalize_tasks processed_articles = Ok processed_articles.
Proof.
  unfold finalize_tasks.
  induction 1 as [|a l Ha Hl IH]; [done|].
  cbn [mapM]. rewrite IH.
  unfold content_ok in Ha. apply andb_true_iff in Ha as [Ht _].
  by destruct (dict_get a "title").
Qed.

Lemma save_processed_article_appended (article : Article)
    (outcome : write_outcome) (st : list entry) :
  save_processed_article article outcome st = st ++ appended article outcome.
Proof.
  unfold appended. destruct outcome as [|[|n]]; simpl; [done| |done].
  by rewrite app_nil_r.
Qed.

Lemma run_save_tasks_appended (writes : nat → write_outcome) (l : list Article) :
  ∀ k st, run_save_tasks writes k l st = st ++ appended_all writes k l.
Proof.
  induction l as [|a l IH]; intros k st; simpl.
  - by rewrite app_nil_r.
  - by rewrite IH, save_processed_article_appended, <- app_assoc.
Qed.

(** A pass whose filter returns: every filtered article is enriched, offered
    to the notification trigger and handed to a save task. *)
Lemma cycle_body_returns (w : cycle_world) (st : list entry) (filtered : list Article) :
  filter_articles
    (fetch_news_for_watchlist (news_api_key w) (watchlist w) (fetch_task w))
  = Ok filtered →
  cycle_body w st
  = Ok {| alerts := omap (λ a, delivery (trigger_alert_if_needed a))
                      (process_single_article (llm w) <$> filtered);
          store := st ++ appended_all (writes w) 0
                           (process_single_article (llm w) <$> filtered) |}.
Proof.
  intros Hf. unfold cycle_body. rewrite Hf. cbn [mbind pyresult_bind].
  destruct filtered as [|a0 rest] eqn:Hl.
  { simpl. by rewrite app_nil_r. }
  cbv iota. rewrite <- Hl in *. rewrite process_batches_all.
  rewrite finalize_tasks_ok.
  - cbn [mbind pyresult_bind]. by rewrite run_save_tasks_appended.
  - apply Forall_fmap, Forall_forall. intros x Hx. simpl.
    rewrite process_single_article_content_ok.
    by eapply filter_articles_content_gate.
Qed.

Lemma cycle_body_raises (w : cycle_world) (st : list entry) e :
  filter_articles
    (fetch_news_for_watchlist (news_api_key w) (watchlist w) (fetch_task w))
  = Raise e →
  cycle_body w st = Raise e.
Proof. intros Hf. unfold cycle_body. by rewrite Hf. Qed.

(** A pass, whatever the filter does. *)
Lemma run_cycle_effects (w : cycle_world) (st : list entry) :
  run_cycle w st
  = (match filter_articles
             (fetch_news_for_watchlist (news_api_key w) (watchlist w) (fetch_task w))
     with
     | Ok filtered =>
         {| alerts := omap (λ a, delivery (trigger_alert_if_needed a))
                        (process_single_article (llm w) <$> filtered);
            store := st ++ appended_all (writes w) 0
                             (process_single_article (llm w) <$> filtered) |}
     | Raise _ => {| alerts := []; store := st |}
     end, sleep_time (elapsed_time w)).
Proof.
  unfold run_cycle.
  destruct (filter_articles _) as [filtered|e] eqn:Hf.
  - by rewrite (cycle_body_returns w st filtered Hf).
  - by rewrite (cycle_body_raises w st e Hf).
Qed.

Lemma cycles_length (worlds : list cycle_world) : ∀ st,
  length (cycles worlds st) = length worlds.
Proof.
  induction worlds as [|w worlds IH]; intros st; simpl; [done|]. by rewrite IH.
Qed.


(** The scenario of the integration test: the invalid article is filtered
    out, three records are stored with their sentiments, and the two
    articles that are not neutral are delivered. *)
Example scenario_cycle :
  let pass := run_cycle scenario_world [] in
  (λ r, dict_get r "sentiment") <$> lines (store pass.1)
    = [PStr "Positive"; PStr "Negative"; PStr "Neutral"] ∧
  (λ r, dict_get r "url") <$> lines (store pass.1)
    = [PStr "http://test.com/pos"; PStr "http://test.com/neg";
       PStr "http://test.com/neu"] ∧
  length (store pass.1) = 3 ∧
  header <$> alerts pass.1
    = ["Positive Sentiment Alert: TESTP (Earnings Beat)";
       "Negative Sentiment Alert: TESTN (Guidance Cut)"] ∧
  color <$> alerts pass.1 = ["#36a64f"; "#ff0000"] ∧
  pass.2 = PFloat (float_of_ratio 1539 2).
Proof. split_and!; [compute_done..|reflexivity]. Qed.




(** ** The persistence sink *)

Lemma process_single_article_keys (llm : enrichment) (a : Article) :
  has_keys raw_keys a →
  has_keys raw_keys (process_single_article llm a) ∧
  (¬ blank_text a → has_keys required_keys (process_single_article llm a)).
Proof.
  intros Hraw.
  assert (has_keys raw_keys (process_single_article llm a)) as Hraw'.
  { intros k Hk. rewrite process_single_article_raw_key by done. by apply Hraw. }
  split; [done|].
  intros Hnb k [Hk|Hk]%elem_of_app; [by apply Hraw'|].
  rewrite process_single_article_enriched by done.
  unfold enrichment_keys in Hk.
  repeat (apply elem_of_cons in Hk as [->|Hk];
          [rewrite ?lookup_insert_eq, ?lookup_insert_ne by done;
           rewrite ?lookup_insert_eq; by eexists|]).
  by apply elem_of_nil in Hk.
Qed.

(** C8, as stated, fails: an article whose title and description are
    blanks passes the filter, is returned unmodified by the enrichment
    stage, and is saved without [summary], [sentiment] and [topic]. *)
Lemma blank_article_saved_without_enrichment :
  filter_articles
    (fetch_news_for_watchlist (news_api_key blank_world) (watchlist blank_world)
       (fetch_task blank_world)) = Ok [BLANK_ARTICLE] ∧
  store (run_cycle blank_world []).1 = [Line BLANK_ARTICLE] ∧
  BLANK_ARTICLE !! "summary" = None ∧
  BLANK_ARTICLE !! "sentiment" = None ∧
  BLANK_ARTICLE !! "topic" = None.
Proof. split_and!; compute_done. Qed.

Lemma appended_all_article (writes : nat → write_outcome) (l : list Article) :
  ∀ k e, e ∈ appended_all writes k l → entry_article e ∈ l.
Proof.
  induction l as [|a l IH]; intros k e; simpl; [by intros ?%elem_of_nil|].
  intros [He|He]%elem_of_app; [|right; by eapply IH].
  unfold appended in He. destruct (writes k) as [|[|n]]; simpl in He.
  - apply list_elem_of_singleton in He as ->. left.
  - by apply elem_of_nil in He.
  - apply list_elem_of_singleton in He as ->. left.
Qed.

(** What a pass adds to the store was written for an enriched article of
    the filter's result. *)
Lemma run_cycle_store_inv (w : cycle_world) (st : list entry) (e : entry) :
  e ∈ store (run_cycle w st).1 →
  e ∈ st ∨
  ∃ filtered a,
    filter_articles
      (fetch_news_for_watchlist (news_api_key w) (watchlist w) (fetch_task w))
    = Ok filtered ∧
    a ∈ filtered ∧ entry_article e = process_single_article (llm w) a.
Proof.
  rewrite run_cycle_effects. simpl.
  destruct (filter_articles _) as [filtered|x] eqn:Hf; simpl; [|by left].
  intros [He|He]%elem_of_app; [by left|right].
  apply appended_all_article, list_elem_of_fmap in He as (a & Ha & Hin).
  by exists filtered, a.
Qed.

(** C8 (amended): everything a pass appends to the store, a complete line
    or the beginning of a line, was written for the enrichment of a
    fetched article that passed the content gate.  That record carries the
    six keys of the fetch, with [None] for what the news API left out, and
    whenever the text of the article is not blank also [summary],
    [sentiment] and [topic]; an article whose text is blank is stored as
    fetched. *)
Theorem saved_record_keys (w : cycle_world) (http : string → http_outcome)
    (st : list entry) (e : entry) :
  fetch_task w = symbol_task http →
  e ∈ store (run_cycle w st).1 →
  e ∈ st ∨
  ∃ a symbol,
    a ∈ fetch_news_for_symbol symbol (http symbol) ∧
    content_ok a = true ∧
    entry_article e = process_single_article (llm w) a ∧
    has_keys raw_keys (entry_article e) ∧
    (¬ blank_text a → has_keys required_keys (entry_article e)) ∧
    (blank_text a → entry_article e = a).
Proof.
  intros Htask He.
  apply run_cycle_store_inv in He as [He|(filtered & a & Hf & Ha & Hr)]; [by left|].
  right. rewrite Hr.
  assert (content_ok a = true) as Hc by by eapply filter_articles_content_gate.
  apply filter_articles_inv in Hf as [_ ->].
  pose proof (elem_of_sublist _ _ _ Ha (kept_sublist _ _)) as Hraw.
  clear Ha.
  destruct (truthy (news_api_key w)) eqn:Hk.
  2:{ unfold fetch_news_for_watchlist in Hraw. rewrite Hk in Hraw.
      by apply elem_of_nil in Hraw. }
  rewrite fetch_news_for_watchlist_contributions in Hraw by done.
  apply list_elem_of_In, in_flat_map in Hraw as (symbol & _ & Hin).
  rewrite Htask in Hin. simpl in Hin. apply list_elem_of_In in Hin.
  exists a, symbol.
  pose proof (fetch_news_for_symbol_keys _ _ _ Hin) as Hkeys.
  destruct (process_single_article_keys (llm w) a Hkeys) as [H6 H9].
  split_and!; try done.
  intros Hb. by apply process_single_article_blank.
Qed.

Lemma saved_record_keys_witness :
  store (run_cycle positive_world []).1 = [Line POSITIVE_RECORD] ∧
  has_keys raw_keys POSITIVE_RECORD.
Proof.
  assert (store (run_cycle positive_world []).1 = [Line POSITIVE_RECORD]) as Hstore
    by compute_done.
  split; [exact Hstore|].
  destruct (saved_record_keys positive_world http_second_fails []
              (Line POSITIVE_RECORD))
    as [Hin|(a & symbol & _ & _ & _ & Hkeys & _)].
  - reflexivity.
  - rewrite Hstore. left.
  - by apply elem_of_nil in Hin.
  - exact Hkeys.
Defined.

(** * Further properties of the code *)

(** ** The article filter, continued *)

Lemma accepts_subseteq (s s' : gset string) (a : Article) :
  s' ⊆ s → accepts s a = true → accepts s' a = true.
Proof.
  unfold accepts. intros Hsub [Hc Hs]%andb_true_iff.
  rewrite Hc. simpl.
  destruct (dict_get a "url") as [|u]; [done|]. simpl in *.
  apply negb_true_iff, bool_decide_eq_false in Hs.
  apply negb_true_iff, bool_decide_eq_false. set_solver.
Qed.

Lemma kept_refilter (l : list Article) : ∀ s s' : gset string,
  s' ⊆ s → kept (kept l s) s' = kept l s.
Proof.
  induction l as [|a l IH]; intros s s' Hsub; simpl; [done|].
  destruct (accepts s a) eqn:Ha; [|by apply IH].
  simpl. rewrite (accepts_subseteq s s' a Hsub Ha). f_equal.
  apply IH. unfold seen_step. rewrite Ha, (accepts_subseteq s s' a Hsub Ha).
  destruct (dict_get a "url") as [|u]; [done|].
  destruct (truthy (PStr u)); [by apply union_mono_l|done].
Qed.

Lemma content_ok_title (a : Article) :
  content_ok a = true → dict_get a "title" ≠ PNone.
Proof.
  unfold content_ok. intros [Ht _]%andb_true_iff Hn. by rewrite Hn in Ht.
Qed.

(** X1: filtering is idempotent: a list that [filter_articles] returned is
    returned unchanged when it is filtered again. *)
Theorem filter_articles_idempotent (articles out : list Article) :
  filter_articles articles = Ok out → filter_articles out = Ok out.
Proof.
  intros Hf. apply filter_articles_inv in Hf as [_ ->].
  rewrite filter_articles_returns.
  - by rewrite kept_refilter.
  - apply Forall_forall. intros x Hx.
    apply content_ok_title. by eapply kept_content.
Qed.

Lemma filter_articles_idempotent_witness :
  filter_articles [ARTICLE_VALID_1; ARTICLE_VALID_2] = Ok [ARTICLE_VALID_1; ARTICLE_VALID_2].
Proof.
  apply (filter_articles_idempotent
           [ARTICLE_VALID_1; ARTICLE_EMPTY_DESC; ARTICLE_VALID_2; ARTICLE_DUPLICATE_URL]).
  compute_done.
Defined.

Lemma elem_of_nonempty_urls (l : list Article) (u : string) :
  u ∈ nonempty_urls l ↔ ∃ x, x ∈ l ∧ dict_get x "url" = PStr u ∧ u ≠ "".
Proof.
  unfold nonempty_urls. rewrite list_elem_of_omap. split.
  - intros (x & Hx & Hu). exists x. split; [done|].
    destruct (dict_get x "url") as [|v]; [done|].
    destruct (truthy (PStr v)) eqn:Hv; [|done].
    injection Hu as ->. split; [done|]. by apply truthy_str_nonempty.
  - intros (x & Hx & Hu & Hne). exists x. split; [done|].
    rewrite Hu. apply truthy_str_nonempty in Hne. by rewrite Hne.
Qed.

Lemma nonempty_urls_cons (a : Article) (l : list Article) :
  nonempty_urls (a :: l)
  = match dict_get a "url" with
    | PStr u => if truthy (PStr u) then u :: nonempty_urls l else nonempty_urls l
    | PNone => nonempty_urls l
    end.
Proof.
  unfold nonempty_urls. cbn [omap list_omap].
  destruct (dict_get a "url") as [|u]; [done|]. by destruct (truthy (PStr u)).
Qed.

Lemma kept_urls_nodup (l : list Article) : ∀ s : gset string,
  NoDup (nonempty_urls (kept l s)).
Proof.
  induction l as [|a l IH]; intros s; simpl; [constructor|].
  destruct (accepts s a) eqn:Ha; [|apply IH].
  rewrite nonempty_urls_cons.
  destruct (dict_get a "url") as [|u] eqn:Hu; [apply IH|].
  destruct (truthy (PStr u)) eqn:Ht; [|apply IH].
  constructor; [|apply IH].
  intros (x & Hx & Hxu & _)%elem_of_nonempty_urls.
  eapply kept_not_seen; [done..|].
  unfold seen_step. rewrite Ha, Hu, Ht. set_solver.
Qed.

(** X2: whatever [filter_articles] returns, no two of the returned
    articles carry the same non-empty url, and each of them has a
    non-empty title and a non-empty description. *)
Theorem filter_articles_output_invariant (articles out : list Article) :
  filter_articles articles = Ok out →
  NoDup (nonempty_urls out) ∧
  ∀ x, x ∈ out → truthy (dict_get x "title") = true ∧
                 truthy (dict_get x "description") = true.
Proof.
  intros Hf. apply filter_articles_inv in Hf as [_ ->].
  split; [apply kept_urls_nodup|].
  intros x Hx. apply andb_true_iff. by eapply kept_content.
Qed.

Lemma filter_articles_output_invariant_witness :
  NoDup (nonempty_urls [ARTICLE_VALID_1; ARTICLE_MISSING_URL; ARTICLE_EMPTY_URL]).
Proof.
  destruct (filter_articles_output_invariant
              [ARTICLE_VALID_1; ARTICLE_MISSING_URL; ARTICLE_DUPLICATE_URL;
               ARTICLE_EMPTY_URL]
              [ARTICLE_VALID_1; ARTICLE_MISSING_URL; ARTICLE_EMPTY_URL])
    as [H _].
  - compute_done.
  - exact H.
Defined.

(** [filter_articles] returns a list exactly when no article of the
    input has a null or absent title; a null description, url or any other
    field never makes it raise. *)
Theorem filter_articles_returns_iff (articles : list Article) :
  (∃ out, filter_articles articles = Ok out)
  ↔ Forall (λ x, dict_get x "title" ≠ PNone) articles.
Proof.
  split.
  - intros [out Hout]. by apply filter_articles_inv in Hout as [? _].
  - intros H. eexists. by apply filter_articles_returns.
Qed.

(** ** Trimming and letter case *)

Lemma characters_head (s : string) :
  match s, characters s with
  | EmptyString, [] => True
  | String c _, ch :: _ => ∃ tail, ch = String c tail
  | _, _ => False
  end.
Proof.
  destruct s as [|c s]; simpl; [done|].
  destruct (characters s) as [|ch chs]; [by eexists|].
  destruct (starts_with_continuation ch); by eexists.
Qed.

Lemma characters_head_continuation (s : string) :
  match characters s with
  | ch :: _ => starts_with_continuation ch = starts_with_continuation s
  | [] => s = ""
  end.
Proof.
  pose proof (characters_head s) as H.
  destruct s as [|c s], (characters _) as [|ch chs]; try done.
  by destruct H as [tail ->].
Qed.

Lemma join_characters_characters (s : string) : join_characters (characters s) = s.
Proof.
  induction s as [|c s IH]; simpl; [done|].
  destruct (characters s) as [|ch chs]; simpl in *; [by rewrite <- IH|].
  destruct (starts_with_continuation ch); simpl; by rewrite <- IH.
Qed.

Lemma characters_continuation_tail (c : ascii) (tail rest : string) (chs : list string) :
  continuation_only tail →
  characters rest = chs →
  match chs with ch :: _ => starts_with_continuation ch = false | [] => True end →
  characters (String c (tail +:+ rest)) = String c tail :: chs.
Proof.
  intros Htail <- Hhd. revert c.
  induction tail as [|b tail IH]; intros c.
  - change ("" +:+ rest) with rest. simpl.
    destruct (characters rest) as [|ch chs]; [done|]. by rewrite Hhd.
  - inversion Htail as [|? ? Hb Ht]; subst.
    change (String b tail +:+ rest) with (String b (tail +:+ rest)).
    change (characters (String c (String b (tail +:+ rest))))
      with (match characters (String b (tail +:+ rest)) with
            | ch :: chs =>
                if starts_with_continuation ch then String c ch :: chs
                else String c EmptyString :: ch :: chs
            | [] => [String c EmptyString]
            end).
    rewrite (IH Ht b). simpl. by rewrite Hb.
Qed.

Lemma characters_join (chs : list string) :
  segmented chs → characters (join_characters chs) = chs.
Proof.
  intros [Hwf Htl].
  induction chs as [|ch chs IH]; [done|].
  inversion Hwf as [|? ? Hch Hchs]; subst. simpl in Htl.
  destruct ch as [|c tail]; [done|]. simpl in Hch. simpl.
  apply characters_continuation_tail; [done| |].
  - apply IH; [done|]. destruct chs; [constructor|]. by inversion Htl.
  - destruct chs as [|ch' chs']; [done|]. by inversion Htl.
Qed.

Lemma characters_segmented (s : string) : segmented (characters s).
Proof.
  induction s as [|c s [Hwf Htl]]; simpl; [by split; constructor|].
  pose proof (characters_head_continuation s) as Hhd.
  destruct (characters s) as [|ch chs]; [by split; repeat constructor|].
  destruct (starts_with_continuation ch) eqn:Hc.
  - inversion Hwf as [|? ? Hch Hchs]; subst. split; [|done].
    constructor; [|done]. simpl.
    destruct ch as [|b tail]; [done|]. simpl in *.
    constructor; done.
  - split; constructor; try done. by constructor.
Qed.

Lemma segmented_tail (ch : string) (chs : list string) :
  segmented (ch :: chs) → segmented chs.
Proof.
  intros [Hwf Htl]. inversion Hwf; subst. split; [done|].
  simpl in Htl. destruct chs; [constructor|]. by inversion Htl.
Qed.

Lemma lstrip_characters_segmented (chs : list string) :
  segmented chs → segmented (lstrip_characters chs).
Proof.
  induction chs as [|ch chs IH]; simpl; [done|]. intros H.
  destruct (isspace ch); [|done]. by eapply IH, segmented_tail.
Qed.

Lemma rstrip_characters_segmented (chs : list string) :
  segmented chs → segmented (rstrip_characters chs).
Proof.
  induction chs as [|ch chs IH]; simpl; [done|]. intros H.
  pose proof (IH (segmented_tail _ _ H)) as [Hwf' Htl'].
  destruct H as [Hwf Htl]. inversion Hwf as [|? ? Hch Hchs]; subst. simpl in Htl.
  assert (∀ l, Forall (λ ch, starts_with_continuation ch = false) l →
               Forall (λ ch, starts_with_continuation ch = false) (rstrip_characters l))
    as Hkeep.
  { clear. induction l as [|x l IHl]; simpl; [done|]. intros Hx.
    inversion Hx; subst.
    destruct (rstrip_characters l) as [|y r] eqn:Hr.
    - destruct (isspace x); by repeat constructor.
    - constructor; [done|]. by apply IHl. }
  destruct (rstrip_characters chs) as [|y r] eqn:Hr.
  - destruct (isspace ch); split; by repeat constructor.
  - split; [by constructor|]. simpl. rewrite <- Hr. by apply Hkeep.
Qed.

Lemma rstrip_characters_nil (chs : list string) :
  rstrip_characters chs = [] ↔ forallb isspace chs = true.
Proof.
  induction chs as [|ch chs IH]; simpl; [done|].
  destruct (rstrip_characters chs) as [|y r].
  - destruct (isspace ch); simpl; [by rewrite <- IH|]. split; discriminate.
  - split; [discriminate|].
    intros [_ H]%andb_true_iff. apply IH in H. discriminate.
Qed.

Lemma lstrip_characters_forallb (chs : list string) :
  forallb isspace (lstrip_characters chs) = forallb isspace chs.
Proof.
  induction chs as [|ch chs IH]; simpl; [done|].
  destruct (isspace ch) eqn:Hc; simpl; [done|]. by rewrite Hc.
Qed.

Lemma join_characters_empty (chs : list string) :
  Forall well_formed_character chs → join_characters chs = "" → chs = [].
Proof.
  destruct chs as [|ch chs]; [done|].
  intros Hwf. inversion Hwf as [|? ? Hch _]; subst.
  destruct ch; [done|]. discriminate.
Qed.

Lemma strip_empty (s : string) : strip s = "" ↔ all_space s = true.
Proof.
  unfold strip, all_space.
  rewrite <- lstrip_characters_forallb, <- rstrip_characters_nil. split.
  - apply join_characters_empty.
    apply rstrip_characters_segmented, lstrip_characters_segmented,
      characters_segmented.
  - by intros ->.
Qed.

(** The list is empty or begins with a character that is not whitespace. *)
Lemma lstrip_characters_fixed (chs : list string) :
  match chs with [] => True | ch :: _ => isspace ch = false end →
  lstrip_characters chs = chs.
Proof. destruct chs as [|ch chs]; simpl; [done|]. by intros ->. Qed.

Lemma lstrip_characters_head (chs : list string) :
  match lstrip_characters chs with [] => True | ch :: _ => isspace ch = false end.
Proof.
  induction chs as [|ch chs IH]; simpl; [done|].
  destruct (isspace ch) eqn:Hc; [done|]. exact Hc.
Qed.

Lemma rstrip_characters_head (chs : list string) :
  match chs with [] => True | ch :: _ => isspace ch = false end →
  match rstrip_characters chs with [] => True | ch :: _ => isspace ch = false end.
Proof.
  destruct chs as [|ch chs]; simpl; [done|]. intros Hc.
  destruct (rstrip_characters chs); [by rewrite Hc|done].
Qed.

Lemma rstrip_characters_idemp (chs : list string) :
  rstrip_characters (rstrip_characters chs) = rstrip_characters chs.
Proof.
  induction chs as [|ch chs IH]; simpl; [done|].
  destruct (rstrip_characters chs) as [|y r] eqn:Hr.
  - destruct (isspace ch) eqn:Hc; simpl; [done|]. by rewrite Hc.
  - simpl in *. by rewrite IH.
Qed.

Lemma strip_idemp (s : string) : strip (strip s) = strip s.
Proof.
  unfold strip.
  rewrite characters_join.
  2:{ apply rstrip_characters_segmented, lstrip_characters_segmented,
        characters_segmented. }
  rewrite (lstrip_characters_fixed (rstrip_characters _)).
  - by rewrite rstrip_characters_idemp.
  - apply rstrip_characters_head, lstrip_characters_head.
Qed.

Lemma isspace_continuation (ch : string) :
  starts_with_continuation ch = true → isspace ch = false.
Proof.
  destruct ch as [|a ch]; [done|]. simpl.
  destruct a as [[] [] [] [] [] [] [] []]; try discriminate; intros _;
    (destruct ch as [|b [|c [|d ch]]]; reflexivity).
Qed.

Lemma characters_app_lead (s t : string) :
  starts_with_continuation t = false →
  characters (s +:+ t) = characters s ++ characters t.
Proof.
  intros Ht. induction s as [|c s IH]; [done|].
  change (String c s +:+ t) with (String c (s +:+ t)).
  simpl. rewrite IH.
  pose proof (characters_head_continuation t) as Hhd.
  destruct (characters s) as [|ch chs]; simpl.
  - destruct (characters t) as [|ch' chs']; [done|]. by rewrite Hhd, Ht.
  - by destruct (starts_with_continuation ch).
Qed.

Lemma all_space_app_lead (s t : string) :
  starts_with_continuation t = false →
  all_space (s +:+ t) = all_space s && all_space t.
Proof.
  intros Ht. unfold all_space.
  by rewrite characters_app_lead, forallb_app.
Qed.

(** A line feed before a string does not change whether it is blank. *)
Lemma all_space_nl (t : string) : all_space (nl +:+ t) = all_space t.
Proof.
  unfold all_space, nl. change (String _ "" +:+ t) with (String (ascii_of_nat 10) t).
  simpl.
  destruct (characters t) as [|ch chs] eqn:Hch; [done|].
  destruct (starts_with_continuation ch) eqn:Hc; [|done].
  simpl. rewrite (isspace_continuation ch Hc). simpl.
  destruct ch as [|a ch]; [done|]. simpl in Hc.
  destruct ch as [|b [|c ch]]; reflexivity.
Qed.

Lemma lower_char_cases (c : ascii) :
  lower_char c = c ∨
  ((32 < nat_of_ascii c < 128)%nat ∧ (32 < nat_of_ascii (lower_char c) < 128)%nat).
Proof. destruct c as [[] [] [] [] [] [] [] []]; (by left) || (right; vm_compute; lia). Qed.

Lemma is_continuation_lower_char (c : ascii) :
  is_continuation (lower_char c) = is_continuation c.
Proof. destruct c as [[] [] [] [] [] [] [] []]; reflexivity. Qed.

Lemma upper_lower_char (c : ascii) : upper_char (lower_char c) = upper_char c.
Proof. destruct c as [[] [] [] [] [] [] [] []]; reflexivity. Qed.

Lemma lower_lower_char (c : ascii) : lower_char (lower_char c) = lower_char c.
Proof. destruct c as [[] [] [] [] [] [] [] []]; reflexivity. Qed.

Lemma lower_idemp (s : string) : lower (lower s) = lower s.
Proof.
  induction s as [|c s IH]; simpl; [done|]. by rewrite lower_lower_char, IH.
Qed.

Lemma lower_app (s t : string) : lower (s +:+ t) = lower s +:+ lower t.
Proof.
  induction s as [|c s IH]; [done|].
  change (String c s +:+ t) with (String c (s +:+ t)). simpl. by rewrite IH.
Qed.

Ltac decide_byte_tests :=
  repeat match goal with
    | |- context [Nat.eqb ?x ?y] => destruct (Nat.eqb_spec x y); [lia|]
    | |- context [Nat.leb ?x ?y] => destruct (Nat.leb_spec x y); try lia
    end.

(** A character that holds an ASCII letter or any other byte between 33 and
    127 among its first three bytes is of one byte, or not whitespace. *)
Lemma isspace_lower (ch : string) : isspace (lower ch) = isspace ch.
Proof.
  destruct ch as [|a [|b [|c [|d ch]]]]; simpl; try reflexivity.
  - destruct (lower_char_cases a) as [->|[Ha Ha']]; [done|].
    decide_byte_tests; reflexivity.
  - destruct (lower_char_cases a) as [->|[Ha Ha']].
    + destruct (lower_char_cases b) as [->|[Hb Hb']]; [done|].
      rewrite !andb_false_intro2; [done|..]; decide_byte_tests; reflexivity.
    + rewrite !andb_false_intro1; [done|..]; decide_byte_tests; reflexivity.
  - destruct (lower_char_cases a) as [->|[Ha Ha']].
    + destruct (lower_char_cases b) as [->|[Hb Hb']].
      * destruct (lower_char_cases c) as [->|[Hc Hc']]; [done|].
        generalize (nat_of_ascii a), (nat_of_ascii b). intros n m.
        assert (∀ k, (32 < k < 128)%nat →
                  ((n =? 225) && (m =? 154) && (k =? 128)
                   || (n =? 226) && (m =? 128)
                      && ((128 <=? k) && (k <=? 138) || (k =? 168) || (k =? 169)
                          || (k =? 175))
                   || (n =? 226) && (m =? 129) && (k =? 159)
                   || (n =? 227) && (m =? 128) && (k =? 128))%nat = false) as Hk.
        { intros k Hk.
          destruct (Nat.eqb_spec k 128); [lia|]. destruct (Nat.eqb_spec k 159); [lia|].
          destruct (Nat.eqb_spec k 168); [lia|]. destruct (Nat.eqb_spec k 169); [lia|].
          destruct (Nat.eqb_spec k 175); [lia|].
          destruct (Nat.leb_spec 128 k); [lia|].
          simpl. by rewrite !andb_false_r. }
        by rewrite !Hk.
      * generalize (nat_of_ascii a), (nat_of_ascii c),
          (nat_of_ascii (lower_char c)). intros n k k'.
        assert (∀ m k, (32 < m < 128)%nat →
                  ((n =? 225) && (m =? 154) && (k =? 128)
                   || (n =? 226) && (m =? 128)
                      && ((128 <=? k) && (k <=? 138) || (k =? 168) || (k =? 169)
                          || (k =? 175))
                   || (n =? 226) && (m =? 129) && (k =? 159)
                   || (n =? 227) && (m =? 128) && (k =? 128))%nat = false) as Hm.
        { intros m k0 Hm.
          destruct (Nat.eqb_spec m 154); [lia|]. destruct (Nat.eqb_spec m 128); [lia|].
          destruct (Nat.eqb_spec m 129); [lia|].
          by rewrite !andb_false_r. }
        by rewrite !Hm.
    + generalize (nat_of_ascii b), (nat_of_ascii (lower_char b)),
        (nat_of_ascii c), (nat_of_ascii (lower_char c)). intros m m' k k'.
      assert (∀ n m k, (32 < n < 128)%nat →
                ((n =? 225) && (m =? 154) && (k =? 128)
                 || (n =? 226) && (m =? 128)
                    && ((128 <=? k) && (k <=? 138) || (k =? 168) || (k =? 169)
                        || (k =? 175))
                 || (n =? 226) && (m =? 129) && (k =? 159)
                 || (n =? 227) && (m =? 128) && (k =? 128))%nat = false) as Hn.
      { intros n m0 k0 Hn.
        destruct (Nat.eqb_spec n 225); [lia|]. destruct (Nat.eqb_spec n 226); [lia|].
        destruct (Nat.eqb_spec n 227); [lia|]. done. }
      by rewrite !Hn.
Qed.

Lemma starts_with_continuation_lower (s : string) :
  starts_with_continuation (lower s) = starts_with_continuation s.
Proof. destruct s as [|c s]; [done|]. apply is_continuation_lower_char. Qed.

Lemma characters_lower (s : string) :
  characters (lower s) = lower <$> characters s.
Proof.
  induction s as [|c s IH]; [done|].
  change (characters (lower (String c s)))
    with (match characters (lower s) with
          | ch :: chs =>
              if starts_with_continuation ch then String (lower_char c) ch :: chs
              else String (lower_char c) EmptyString :: ch :: chs
          | [] => [String (lower_char c) EmptyString]
          end).
  rewrite IH.
  change (characters (String c s))
    with (match characters s with
          | ch :: chs =>
              if starts_with_continuation ch then String c ch :: chs
              else String c EmptyString :: ch :: chs
          | [] => [String c EmptyString]
          end).
  destruct (characters s) as [|ch chs]; [done|].
  change (lower <$> ch :: chs) with (lower ch :: (lower <$> chs)).
  cbv beta iota. rewrite starts_with_continuation_lower.
  by destruct (starts_with_continuation ch).
Qed.

Lemma lstrip_characters_lower (chs : list string) :
  lstrip_characters (lower <$> chs) = lower <$> lstrip_characters chs.
Proof.
  induction chs as [|ch chs IH]; [done|].
  change (lower <$> ch :: chs) with (lower ch :: (lower <$> chs)).
  cbn [lstrip_characters]. rewrite isspace_lower.
  by destruct (isspace ch).
Qed.

Lemma rstrip_characters_lower (chs : list string) :
  rstrip_characters (lower <$> chs) = lower <$> rstrip_characters chs.
Proof.
  induction chs as [|ch chs IH]; [done|].
  change (lower <$> ch :: chs) with (lower ch :: (lower <$> chs)).
  cbn [rstrip_characters]. rewrite IH, isspace_lower.
  destruct (rstrip_characters chs); [by destruct (isspace ch)|done].
Qed.

Lemma join_characters_lower (chs : list string) :
  join_characters (lower <$> chs) = lower (join_characters chs).
Proof.
  induction chs as [|ch chs IH]; [done|].
  change (join_characters (lower <$> ch :: chs))
    with (lower ch +:+ join_characters (lower <$> chs)).
  change (join_characters (ch :: chs)) with (ch +:+ join_characters chs).
  by rewrite IH, lower_app.
Qed.

Lemma strip_lower (s : string) : strip (lower s) = lower (strip s).
Proof.
  unfold strip.
  by rewrite characters_lower, lstrip_characters_lower,
    rstrip_characters_lower, join_characters_lower.
Qed.

Lemma capitalize_lower (s : string) : capitalize (lower s) = capitalize s.
Proof.
  destruct s as [|c s]; simpl; [done|]. by rewrite upper_lower_char, lower_idemp.
Qed.

Lemma capitalize_strip_lower (s : string) :
  capitalize (strip s) = capitalize (lower (strip s)).
Proof. by rewrite capitalize_lower. Qed.

Lemma has_char_app (x : ascii) (s t : string) :
  has_char x (s +:+ t) = has_char x s || has_char x t.
Proof.
  induction s as [|c s IH]; [done|].
  change (String c s +:+ t) with (String c (s +:+ t)). simpl.
  by rewrite IH, orb_assoc.
Qed.

Lemma has_char_join_characters (x : ascii) (chs : list string) :
  has_char x (join_characters chs) = false ↔
  Forall (λ ch, has_char x ch = false) chs.
Proof.
  induction chs as [|ch chs IH].
  - split; [constructor|done].
  - change (join_characters (ch :: chs)) with (ch +:+ join_characters chs).
    rewrite has_char_app, orb_false_iff, IH, Forall_cons. done.
Qed.

Lemma lstrip_characters_Forall (P : string → Prop) (chs : list string) :
  Forall P chs → Forall P (lstrip_characters chs).
Proof.
  induction 1 as [|ch chs Hch Hchs IH]; [constructor|].
  cbn [lstrip_characters]. destruct (isspace ch); [done|by constructor].
Qed.

Lemma rstrip_characters_Forall (P : string → Prop) (chs : list string) :
  Forall P chs → Forall P (rstrip_characters chs).
Proof.
  induction 1 as [|ch chs Hch Hchs IH]; [constructor|].
  cbn [rstrip_characters].
  destruct (rstrip_characters chs);
    [destruct (isspace ch); by repeat constructor|by constructor].
Qed.

Lemma has_char_strip (x : ascii) (s : string) :
  has_char x s = false → has_char x (strip s) = false.
Proof.
  intros H. unfold strip. apply has_char_join_characters.
  apply rstrip_characters_Forall, lstrip_characters_Forall.
  apply has_char_join_characters. by rewrite join_characters_characters.
Qed.

(** ** The enrichment client, continued *)

Lemma capitalize_empty_not_label : capitalize (strip "") ∉ sentiment_labels.
Proof.
  vm_compute. intros Hin.
  repeat (apply elem_of_cons in Hin as [Heq|Hin]; [discriminate Heq|]).
  by apply elem_of_nil in Hin.
Qed.

Lemma analyze_sentiment_reply (svc : LLMService) invoke (text raw : string) :
  client svc = Some invoke →
  invoke sentiment_system_prompt (sentiment_user_prompt text) = Content raw →
  llm_service.analyze_sentiment svc text
  = if bool_decide (capitalize (strip raw) ∈ sentiment_labels)
    then PStr (capitalize (strip raw)) else PNone.
Proof.
  intros Hc Hr. unfold llm_service.analyze_sentiment, generate_response.
  rewrite Hc, Hr.
  destruct raw as [|c raw]; [|done].
  rewrite bool_decide_eq_false_2; [done|apply capitalize_empty_not_label].
Qed.

Lemma is_ascii_lower (s : string) : is_ascii (lower s) = is_ascii s.
Proof.
  unfold is_ascii. induction s as [|c s IH]; [done|]. simpl. rewrite IH.
  f_equal. destruct c as [[] [] [] [] [] [] [] []]; reflexivity.
Qed.

Lemma is_ascii_capitalize (s : string) : is_ascii (capitalize s) = is_ascii s.
Proof.
  destruct s as [|c s]; [done|].
  pose proof (is_ascii_lower s) as Hl. unfold is_ascii in *. simpl. rewrite Hl.
  f_equal. destruct c as [[] [] [] [] [] [] [] []]; reflexivity.
Qed.

Lemma sentiment_labels_ascii (label : string) :
  label ∈ sentiment_labels → is_ascii label = true.
Proof.
  unfold sentiment_labels. intros Hl.
  repeat (apply elem_of_cons in Hl as [->|Hl]; [reflexivity|]).
  by apply elem_of_nil in Hl.
Qed.

(** X3: the label is read without regard to the case of its letters and
    to surrounding whitespace: two replies that are equal after trimming
    and after lower-casing their ASCII letters give the same result.  No
    other case mapping matters: a reply that, trimmed, holds a character
    outside ASCII gives [None]. *)
Theorem analyze_sentiment_case_insensitive (svc svc' : LLMService) invoke invoke'
    (text raw raw' : string) :
  client svc = Some invoke → client svc' = Some invoke' →
  invoke sentiment_system_prompt (sentiment_user_prompt text) = Content raw →
  invoke' sentiment_system_prompt (sentiment_user_prompt text) = Content raw' →
  (lower (strip raw) = lower (strip raw') →
   llm_service.analyze_sentiment svc text = llm_service.analyze_sentiment svc' text) ∧
  (is_ascii (strip raw) = false → llm_service.analyze_sentiment svc text = PNone).
Proof.
  intros Hc Hc' Hr Hr'.
  rewrite (analyze_sentiment_reply svc invoke text raw Hc Hr).
  rewrite (analyze_sentiment_reply svc' invoke' text raw' Hc' Hr').
  split.
  - intros Heq.
    by rewrite (capitalize_strip_lower raw), Heq, <- capitalize_strip_lower.
  - intros Hna. case_bool_decide as Hl; [|done].
    apply sentiment_labels_ascii in Hl. rewrite is_ascii_capitalize in Hl.
    congruence.
Qed.

Lemma analyze_sentiment_case_insensitive_witness :
  llm_service.analyze_sentiment (answering " NEGATIVE ") "Setback."
  = llm_service.analyze_sentiment (answering "negative") "Setback.".
Proof.
  apply (analyze_sentiment_case_insensitive (answering " NEGATIVE ")
           (answering "negative") (λ _ _, Content " NEGATIVE ")
           (λ _ _, Content "negative") "Setback." " NEGATIVE " "negative"
           eq_refl eq_refl eq_refl eq_refl).
  reflexivity.
Defined.

(** X4: a reply made of whitespace only (or empty) is handled differently
    by the three calls: the summary is the reply itself, untrimmed; the
    sentiment is [None]; the topic is the empty string, and [None] only for
    the empty reply. *)
Theorem blank_reply_results (svc : LLMService) invoke (text raw : string) :
  client svc = Some invoke →
  all_space raw = true →
  (∀ system_prompt user_prompt, invoke system_prompt user_prompt = Content raw) →
  llm_service.summarize_text svc text = PStr raw ∧
  llm_service.analyze_sentiment svc text = PNone ∧
  llm_service.extract_topic svc text = (if String.eqb raw "" then PNone else PStr "").
Proof.
  intros Hc Hs Hr. split_and!.
  - unfold llm_service.summarize_text, generate_response. by rewrite Hc, Hr.
  - rewrite (analyze_sentiment_reply svc invoke text raw Hc (Hr _ _)).
    apply strip_empty in Hs. rewrite Hs.
    rewrite bool_decide_eq_false_2; [done|apply capitalize_empty_not_label].
  - unfold llm_service.extract_topic, generate_response. rewrite Hc, Hr.
    simpl. destruct (String.eqb raw ""); simpl; [done|].
    apply strip_empty in Hs. by rewrite Hs.
Qed.

Lemma blank_reply_results_witness :
  llm_service.summarize_text (answering "  ") "Profits soar." = PStr "  " ∧
  llm_service.analyze_sentiment (answering "  ") "Profits soar." = PNone ∧
  llm_service.extract_topic (answering "  ") "Profits soar." = PStr "".
Proof.
  apply (blank_reply_results (answering "  ") (λ _ _, Content "  ") "Profits soar." "  ");
    reflexivity.
Defined.

(** X5: the topic is [None] or a trimmed string: a returned topic has no
    whitespace at either end; it is [None] exactly when the backend gave
    no reply or an empty one. *)
Theorem extract_topic_trimmed (svc : LLMService) (text : string) :
  (∀ topic, llm_service.extract_topic svc text = PStr topic → strip topic = topic) ∧
  (llm_service.extract_topic svc text = PNone
   ↔ client svc = None ∨
     truthy (generate_response svc topic_system_prompt (topic_user_prompt text)) = false).
Proof.
  unfold llm_service.extract_topic, generate_response.
  destruct (client svc) as [invoke|]; [|split; [done|by split; [left|]]].
  destruct (invoke _ _) as [raw| |]; try (split; [done|by split; [right|]]).
  split.
  - intros topic. destruct (truthy (PStr raw)); [|done].
    intros [= <-]. apply strip_idemp.
  - destruct (truthy (PStr raw)); split; try done.
    + by intros [?|?].
    + by right.
Qed.

Lemma extract_topic_trimmed_witness :
  strip "Earnings Report" = "Earnings Report".
Proof.
  destruct (extract_topic_trimmed (answering "  Earnings Report
") "Profits soar.") as [H _].
  apply H. vm_compute. reflexivity.
Defined.

(** ** The article enricher, continued *)

Lemma blank_text_all_space (a : Article) :
  blank_text a
  ↔ all_space (format (dict_get_or a "title" (PStr ""))) = true ∧
    all_space (format (dict_get_or a "description" (PStr ""))) = true.
Proof.
  unfold blank_text, text_to_process.
  rewrite strip_empty, all_space_app_lead by reflexivity.
  by rewrite all_space_nl, andb_true_iff.
Qed.

(** X6: [process_single_article] returns the article as it received it
    exactly when the title and the description, as formatted into the
    text, consist of whitespace only (of any Unicode whitespace, as
    [strip] removes it); in every other case it returns the article with
    the three results of the enrichment calls on that text.  A title or a
    description that is present with the value [None] is formatted as the
    word [None], so such an article is always enriched. *)
Theorem blank_text_iff (llm : enrichment) (a : Article) :
  let title := format (dict_get_or a "title" (PStr "")) in
  let description := format (dict_get_or a "description" (PStr "")) in
  let enriched :=
    <["topic" := value_or_error (main.extract_topic llm (text_to_process a))]>
    (<["sentiment" := value_or_error (main.analyze_sentiment llm (text_to_process a))]>
    (<["summary" := value_or_error (main.summarize_text llm (text_to_process a))]> a)) in
  (all_space title = true ∧ all_space description = true →
     process_single_article llm a = a) ∧
  (all_space title = false ∨ all_space description = false →
     process_single_article llm a = enriched) ∧
  (a !! "title" = Some PNone ∨ a !! "description" = Some PNone →
     process_single_article llm a = enriched).
Proof.
  intros title description enriched.
  assert (all_space title = false ∨ all_space description = false →
          process_single_article llm a = enriched) as Hne.
  { intros Hf. apply process_single_article_enriched.
    rewrite blank_text_all_space. fold title description.
    intros [Ht Hd]. destruct Hf as [Hf|Hf]; congruence. }
  split_and!.
  - intros H. by apply process_single_article_blank, blank_text_all_space.
  - exact Hne.
  - intros Hn. apply Hne. subst title description. unfold dict_get_or.
    destruct Hn as [-> | ->]; [by left|by right].
Qed.

Lemma blank_text_iff_witness :
  process_single_article (llm_enrichment (answering "Neutral"))
    (<["title" := PStr no_break_space]> (<["description" := PStr " "]> ∅))
  = <["title" := PStr no_break_space]> (<["description" := PStr " "]> ∅).
Proof.
  destruct (blank_text_iff (llm_enrichment (answering "Neutral"))
              (<["title" := PStr no_break_space]> (<["description" := PStr " "]> ∅)))
    as (H & _ & _).
  apply H. split; reflexivity.
Defined.

(** ** The fetch stage, continued *)

Lemma readable_prefix_length (articles : list api_article) :
  (length (readable_prefix articles) ≤ length articles)%nat.
Proof.
  induction articles as [|a articles IH]; simpl; [done|].
  destruct (source_name a); simpl; lia.
Qed.

Lemma readable_prefix_all (articles : list api_article) :
  Forall (λ a, source a ≠ SourceNull) articles →
  length (readable_prefix articles) = length articles.
Proof.
  induction 1 as [|a articles Ha Hl IH]; simpl; [done|].
  unfold source_name. destruct (source a); simpl; by rewrite ?IH.
Qed.

(** X7: on an answer with status ["ok"], [fetch_news_for_symbol] returns
    one record per API article, in order, up to the first article whose
    ["source"] is null: the records before it are returned, it and the
    rest are lost.  So never more records than API articles, and exactly
    as many when no source is null. *)
Theorem fetch_news_for_symbol_prefix (symbol : string) (articles : list api_article) :
  fetch_news_for_symbol symbol (JsonBody (PStr "ok") articles)
  = (λ p, raw_article symbol p.1 p.2) <$> readable_prefix articles ∧
  (length (fetch_news_for_symbol symbol (JsonBody (PStr "ok") articles))
   ≤ length articles)%nat ∧
  (Forall (λ a, source a ≠ SourceNull) articles →
   length (fetch_news_for_symbol symbol (JsonBody (PStr "ok") articles))
   = length articles) ∧
  (∀ before a after,
     articles = before ++ a :: after →
     Forall (λ a, source a ≠ SourceNull) before → source a = SourceNull →
     length (fetch_news_for_symbol symbol (JsonBody (PStr "ok") articles))
     = length before).
Proof.
  assert (fetch_news_for_symbol symbol (JsonBody (PStr "ok") articles)
          = (λ p, raw_article symbol p.1 p.2) <$> readable_prefix articles) as Heq.
  { simpl. by rewrite extract_loop_readable. }
  rewrite Heq, length_fmap. split_and!.
  - done.
  - apply readable_prefix_length.
  - apply readable_prefix_all.
  - intros before a after -> Hb Ha. clear Heq.
    induction Hb as [|b before Hsrc Hb IH]; simpl.
    + unfold source_name. by rewrite Ha.
    + unfold source_name in *.
      destruct (source b) eqn:Hsb; simpl.
      * by rewrite IH.
      * congruence.
      * by rewrite IH.
Qed.

Lemma fetch_news_for_symbol_prefix_witness :
  length (fetch_news_for_symbol "TESTP"
            (JsonBody (PStr "ok")
               ([api_item "Good News Inc." "Profits soar." "http://test.com/pos"]
                ++ null_source_item
                :: [api_item "Late News" "Lost." "http://test.com/late"]))) = 1%nat.
Proof.
  destruct (fetch_news_for_symbol_prefix "TESTP"
              ([api_item "Good News Inc." "Profits soar." "http://test.com/pos"]
               ++ null_source_item
               :: [api_item "Late News" "Lost." "http://test.com/late"]))
    as (_ & _ & _ & H).
  apply (H _ _ _ eq_refl); [|reflexivity].
  repeat constructor. discriminate.
Defined.

Lemma raw_article_shape (symbol : string) (a : api_article) (name : pyval) :
  raw_article symbol a name !! "symbol" = Some (PStr symbol) ∧
  dom (raw_article symbol a name) = list_to_set raw_keys.
Proof.
  unfold raw_article. split; [by rewrite lookup_insert_eq|].
  rewrite !dom_insert_L, dom_empty_L. unfold raw_keys. simpl. set_solver.
Qed.

Lemma fetch_news_for_symbol_shape (symbol : string) (response : http_outcome)
    (a : Article) :
  a ∈ fetch_news_for_symbol symbol response →
  a !! "symbol" = Some (PStr symbol) ∧ dom a = list_to_set raw_keys.
Proof.
  destruct response as [| | |status articles]; simpl; try by intros ?%elem_of_nil.
  case_bool_decide; [|by intros ?%elem_of_nil].
  rewrite extract_loop_readable, app_nil_l.
  intros ([x name] & -> & _)%list_elem_of_fmap. apply raw_article_shape.
Qed.

(** X8: every record [fetch_news_for_symbol] returns is tagged with the
    symbol that was queried and has exactly the six keys [symbol], [title],
    [description], [url], [published_at] and [source], whatever members
    the API article had. *)
Theorem fetch_news_for_symbol_records (symbol : string) (response : http_outcome)
    (a : Article) :
  a ∈ fetch_news_for_symbol symbol response →
  dict_get a "symbol" = PStr symbol ∧
  ∀ k, is_Some (a !! k) ↔ k ∈ raw_keys.
Proof.
  intros [Hs Hd]%fetch_news_for_symbol_shape. split.
  - unfold dict_get. by rewrite Hs.
  - intros k. rewrite <- elem_of_dom, Hd. apply elem_of_list_to_set.
Qed.

Lemma fetch_news_for_symbol_records_witness :
  dict_get (raw_article "TESTP"
              (api_item "Good News Inc." "Profits soar." "http://test.com/pos")
              (PStr "TestFeed")) "symbol" = PStr "TESTP".
Proof.
  destruct (fetch_news_for_symbol_records "TESTP"
              (JsonBody (PStr "ok")
                 [api_item "Good News Inc." "Profits soar." "http://test.com/pos"])
              (raw_article "TESTP"
                 (api_item "Good News Inc." "Profits soar." "http://test.com/pos")
                 (PStr "TestFeed"))) as [H _].
  - assert (fetch_news_for_symbol "TESTP"
              (JsonBody (PStr "ok")
                 [api_item "Good News Inc." "Profits soar." "http://test.com/pos"])
            = [raw_article "TESTP"
                 (api_item "Good News Inc." "Profits soar." "http://test.com/pos")
                 (PStr "TestFeed")]) as -> by compute_done.
    left.
  - exact H.
Defined.

(** X9: the combined list of [fetch_news_for_watchlist] is empty when the
    API key is missing or empty; otherwise it is the lists of the symbols
    one after the other in watchlist order, so every article in it is
    tagged with a symbol of the watchlist. *)
Theorem fetch_news_for_watchlist_combined (api_key : pyval) (watchlist : list string)
    (http : string → http_outcome) :
  (truthy api_key = false →
   fetch_news_for_watchlist api_key watchlist (symbol_task http) = []) ∧
  (truthy api_key = true →
   fetch_news_for_watchlist api_key watchlist (symbol_task http)
   = flat_map (λ s, fetch_news_for_symbol s (http s)) watchlist) ∧
  (∀ a, a ∈ fetch_news_for_watchlist api_key watchlist (symbol_task http) →
        ∃ s, s ∈ watchlist ∧ dict_get a "symbol" = PStr s).
Proof.
  assert (truthy api_key = true →
          fetch_news_for_watchlist api_key watchlist (symbol_task http)
          = flat_map (λ s, fetch_news_for_symbol s (http s)) watchlist) as Hflat.
  { intros Hk. by rewrite fetch_news_for_watchlist_contributions. }
  split_and!.
  - intros Hk. unfold fetch_news_for_watchlist. by rewrite Hk.
  - exact Hflat.
  - intros a Ha. destruct (truthy api_key) eqn:Hk.
    + rewrite Hflat in Ha by done.
      apply list_elem_of_In, in_flat_map in Ha as (s & Hs & Hin).
      exists s. split; [by apply list_elem_of_In|].
      apply list_elem_of_In, fetch_news_for_symbol_shape in Hin as [Hsym _].
      unfold dict_get. by rewrite Hsym.
    + unfold fetch_news_for_watchlist in Ha. rewrite Hk in Ha.
      by apply elem_of_nil in Ha.
Qed.

Lemma fetch_news_for_watchlist_combined_witness :
  fetch_news_for_watchlist PNone ["TESTP"; "TESTN"] (symbol_task http_second_fails) = [] ∧
  fetch_news_for_watchlist (PStr "key") ["TESTP"; "TESTN"] (symbol_task http_second_fails)
  = fetch_news_for_symbol "TESTP" (http_second_fails "TESTP").
Proof.
  destruct (fetch_news_for_watchlist_combined PNone ["TESTP"; "TESTN"] http_second_fails)
    as (Hnone & _).
  destruct (fetch_news_for_watchlist_combined (PStr "key") ["TESTP"; "TESTN"]
              http_second_fails) as (_ & Hkey & _).
  split.
  - apply Hnone. reflexivity.
  - rewrite Hkey by reflexivity. compute_done.
Defined.

(** ** The cycle, continued *)




Lemma cycle_new_records (w : cycle_world) (st : list entry) (e : entry) :
  e ∈ store (run_cycle w st).1 →
  e ∈ st ∨
  ∃ a, a ∈ fetch_news_for_watchlist (news_api_key w) (watchlist w) (fetch_task w) ∧
       content_ok a = true ∧ entry_article e = process_single_article (llm w) a.
Proof.
  intros [He|(filtered & a & Hf & Ha & Hr)]%run_cycle_store_inv; [by left|right].
  exists a. split_and!; [|by eapply filter_articles_content_gate|done].
  apply filter_articles_inv in Hf as [_ ->].
  by apply (elem_of_sublist _ _ _ Ha (kept_sublist _ _)).
Qed.

Lemma run_cycle_store_prefix (w : cycle_world) (st : list entry) :
  st `prefix_of` store (run_cycle w st).1.
Proof.
  rewrite run_cycle_effects. simpl.
  destruct (filter_articles _); simpl; [by apply prefix_app_r|done].
Qed.

Lemma appended_all_length (writes : nat → write_outcome) (l : list Article) :
  ∀ k, (length (appended_all writes k l) ≤ length l)%nat.
Proof.
  induction l as [|a l IH]; intros k; simpl; [done|].
  rewrite length_app. specialize (IH (S k)).
  unfold appended. destruct (writes k) as [|[|n]]; simpl; lia.
Qed.

Lemma appended_all_nothing (writes : nat → write_outcome) (l : list Article) :
  ∀ k, (∀ i, (k ≤ i < k + length l)%nat → writes i = Failed 0) →
       appended_all writes k l = [].
Proof.
  induction l as [|a l IH]; intros k Hw; simpl; [done|].
  rewrite IH by (intros i Hi; apply Hw; simpl; lia).
  rewrite Hw by (simpl; lia). done.
Qed.

Lemma appended_all_written (writes : nat → write_outcome) (l : list Article) :
  ∀ k, (∀ i, (k ≤ i < k + length l)%nat → writes i = Written) →
       appended_all writes k l = Line <$> l.
Proof.
  induction l as [|a l IH]; intros k Hw; simpl; [done|].
  rewrite IH by (intros i Hi; apply Hw; simpl; lia).
  rewrite Hw by (simpl; lia). done.
Qed.

Lemma appended_all_origin (writes : nat → write_outcome) (l : list Article) :
  ∀ k e, e ∈ appended_all writes k l →
    ∃ i a, l !! i = Some a ∧
      match e with
      | Line b => b = a ∧ writes (k + i)%nat = Written
      | Fragment b n => b = a ∧ n ≠ 0%nat ∧ writes (k + i)%nat = Failed n
      end.
Proof.
  induction l as [|a l IH]; intros k e; simpl; [by intros ?%elem_of_nil|].
  intros [He|He]%elem_of_app.
  - exists 0%nat, a. split; [done|]. rewrite Nat.add_0_r.
    unfold appended in He. destruct (writes k) as [|[|n]] eqn:Hk; simpl in He.
    + by apply list_elem_of_singleton in He as ->.
    + by apply elem_of_nil in He.
    + by apply list_elem_of_singleton in He as ->.
  - apply IH in He as (i & b & Hi & He). exists (S i), b. split; [done|].
    by replace (k + S i)%nat with (S k + i)%nat by lia.
Qed.

(** X12: the store is append-only.  A pass leaves what it found in place
    and adds at most one entry per fetched article.  The entries it adds
    are decided write by write: a complete line where the write went
    through, the beginning of a line where it failed after some characters
    were written, nothing where it failed before; so with every write
    going through the pass adds the lines of all enriched articles, in
    order, and with every write failing at once it leaves the store as it
    was.  Over the whole loop every pass ends with a store that extends
    the initial one. *)
Theorem store_append_only :
  (∀ w st, st `prefix_of` store (run_cycle w st).1) ∧
  (∀ w st,
     (length (store (run_cycle w st).1)
      ≤ length st
        + length (fetch_news_for_watchlist (news_api_key w) (watchlist w) (fetch_task w)))%nat) ∧
  (∀ w st, (∀ k, writes w k = Failed 0) → store (run_cycle w st).1 = st) ∧
  (∀ w st filtered,
     filter_articles
       (fetch_news_for_watchlist (news_api_key w) (watchlist w) (fetch_task w))
     = Ok filtered →
     (∀ k, (k < length filtered)%nat → writes w k = Written) →
     store (run_cycle w st).1
     = st ++ (Line <$> (process_single_article (llm w) <$> filtered))) ∧
  (∀ w st filtered e,
     filter_articles
       (fetch_news_for_watchlist (news_api_key w) (watchlist w) (fetch_task w))
     = Ok filtered →
     e ∈ store (run_cycle w st).1 →
     e ∈ st ∨
     ∃ k a, filtered !! k = Some a ∧
       match e with
       | Line r => r = process_single_article (llm w) a ∧ writes w k = Written
       | Fragment r n =>
           r = process_single_article (llm w) a ∧ n ≠ 0%nat ∧ writes w k = Failed n
       end) ∧
  (∀ worlds st pass, pass ∈ cycles worlds st → st `prefix_of` store pass.1).
Proof.
  split_and!.
  - apply run_cycle_store_prefix.
  - intros w st. rewrite run_cycle_effects. simpl.
    destruct (filter_articles _) as [filtered|x] eqn:Hf; simpl; [|lia].
    apply filter_articles_inv in Hf as [_ ->].
    rewrite length_app.
    pose proof (sublist_length _ _
                  (kept_sublist
                     (fetch_news_for_watchlist (news_api_key w) (watchlist w)
                        (fetch_task w)) ∅)) as Hlen.
    pose proof (appended_all_length (writes w)
                  (process_single_article (llm w) <$>
                     kept (fetch_news_for_watchlist (news_api_key w) (watchlist w)
                             (fetch_task w)) ∅) 0) as Hle.
    rewrite length_fmap in Hle. lia.
  - intros w st Hw. rewrite run_cycle_effects. simpl.
    destruct (filter_articles _) as [filtered|x]; simpl; [|done].
    rewrite appended_all_nothing; [by rewrite app_nil_r|]. intros i _. apply Hw.
  - intros w st filtered Hf Hw. rewrite run_cycle_effects, Hf. simpl.
    rewrite appended_all_written; [done|].
    intros i Hi. apply Hw. rewrite length_fmap in Hi. lia.
  - intros w st filtered e Hf. rewrite run_cycle_effects, Hf. simpl.
    intros [He|He]%elem_of_app; [by left|right].
    apply appended_all_origin in He as (i & r & Hi & He). simpl in He.
    apply list_lookup_fmap_Some in Hi as (a & Hi & Ha). subst r.
    exists i, a. split; [done|]. destruct e; exact He.
  - intros worlds. induction worlds as [|w worlds IH]; intros st pass; simpl.
    + by intros ?%elem_of_nil.
    + intros [->|Hin]%elem_of_cons; [apply run_cycle_store_prefix|].
      etrans; [apply (run_cycle_store_prefix w st)|by apply IH].
Qed.

Lemma store_append_only_witness :
  store (run_cycle failing_disk_world [Line BLANK_ARTICLE]).1 = [Line BLANK_ARTICLE] ∧
  store (run_cycle torn_write_world []).1
  = [Line (process_single_article fake_enrichment MOCK_RAW_ARTICLE_POSITIVE);
     Fragment (process_single_article fake_enrichment MOCK_RAW_ARTICLE_NEGATIVE) 17;
     Line (process_single_article fake_enrichment MOCK_RAW_ARTICLE_NEUTRAL)].
Proof.
  destruct store_append_only as (_ & _ & H & _).
  split; [apply H; reflexivity|compute_done].
Defined.

(** X13: one article with a null or absent title, from any symbol, costs
    the whole pass: nothing is delivered, nothing is saved, and the pass
    goes to sleep as usual. *)
Theorem null_title_discards_pass (w : cycle_world) (st : list entry) :
  Exists (λ x, dict_get x "title" = PNone)
    (fetch_news_for_watchlist (news_api_key w) (watchlist w) (fetch_task w)) →
  run_cycle w st = ({| alerts := []; store := st |}, sleep_time (elapsed_time w)).
Proof.
  intros Hex. unfold run_cycle.
  rewrite (cycle_body_raises w st (TypeError "'NoneType' object is not subscriptable"));
    [done|].
  by apply filter_loop_raise.
Qed.

Lemma null_title_discards_pass_witness :
  run_cycle null_title_world []
  = ({| alerts := []; store := [] |}, sleep_time (float_of_ratio 261 2)).
Proof.
  apply (null_title_discards_pass null_title_world []).
  apply Exists_cons_tl, Exists_cons_hd. vm_compute. reflexivity.
Defined.

(** X14: everything a pass adds to the store, a complete line or the
    beginning of one, was written for a record that carries a symbol of
    the watchlist of that pass. *)
Theorem saved_record_symbol (w : cycle_world) (http : string → http_outcome)
    (st : list entry) (e : entry) :
  fetch_task w = symbol_task http →
  e ∈ store (run_cycle w st).1 →
  e ∈ st ∨ ∃ s, s ∈ watchlist w ∧ dict_get (entry_article e) "symbol" = PStr s.
Proof.
  intros Htask [Hr|(a & Ha & _ & Hr)]%cycle_new_records; [by left|right].
  rewrite Hr.
  destruct (truthy (news_api_key w)) eqn:Hk.
  2:{ unfold fetch_news_for_watchlist in Ha. rewrite Hk in Ha.
      by apply elem_of_nil in Ha. }
  rewrite fetch_news_for_watchlist_contributions in Ha by done.
  apply list_elem_of_In, in_flat_map in Ha as (s & Hs & Hin).
  rewrite Htask in Hin. simpl in Hin.
  apply list_elem_of_In, fetch_news_for_symbol_shape in Hin as [Hsym _].
  exists s. split; [by apply list_elem_of_In|].
  unfold dict_get.
  rewrite process_single_article_raw_key; [by rewrite Hsym|].
  unfold raw_keys. left.
Qed.

Lemma saved_record_symbol_witness :
  ∃ s, s ∈ watchlist positive_world ∧ dict_get POSITIVE_RECORD "symbol" = PStr s.
Proof.
  assert (store (run_cycle positive_world []).1 = [Line POSITIVE_RECORD]) as Hstore
    by compute_done.
  destruct (saved_record_symbol positive_world http_second_fails []
              (Line POSITIVE_RECORD))
    as [Hin|H].
  - reflexivity.
  - rewrite Hstore. left.
  - by apply elem_of_nil in Hin.
  - exact H.
Defined.

(** ** The notification trigger, continued *)



(** ** The configuration *)

Lemma split_on_nonempty (sep : ascii) (s : string) : PyStr.split_on sep s ≠ [].
Proof.
  induction s as [|c s IH]; simpl; [done|].
  destruct (Ascii.eqb c sep); [done|].
  by destruct (PyStr.split_on sep s).
Qed.

Lemma split_on_no_sep (sep : ascii) (s : string) :
  Forall (λ piece, has_char sep piece = false) (PyStr.split_on sep s).
Proof.
  induction s as [|c s IH]; simpl; [by repeat constructor|].
  destruct (Ascii.eqb c sep) eqn:Hc; [by constructor|].
  destruct (PyStr.split_on sep s) as [|piece pieces]; [by repeat constructor; simpl; rewrite Hc|].
  inversion IH as [|? ? Hp Hps]; subst.
  constructor; [|done]. simpl. by rewrite Hc, Hp.
Qed.

Lemma nonblank_iff (s : string) :
  truthy (PStr (strip s)) = true ↔ all_space s = false.
Proof.
  rewrite truthy_str_nonempty, strip_empty. by destruct (all_space s).
Qed.

(** X16: whatever [WATCHLIST_SYMBOLS] holds, every symbol of the parsed
    watchlist is trimmed, not empty and free of commas, and is the trimmed
    form of a comma-separated piece of the value; conversely every piece
    that is not blank is kept, in its trimmed form, so that the watchlist
    has one symbol for each such piece: padding is removed, never a reason
    to drop an entry. *)
Theorem parse_symbols_clean (value : string) :
  (∀ s, s ∈ config_loader.parse_symbols value →
     clean_symbol s ∧
     ∃ piece, piece ∈ PyStr.split_on "," value ∧ all_space piece = false ∧
              s = strip piece) ∧
  (∀ piece, piece ∈ PyStr.split_on "," value → all_space piece = false →
     strip piece ∈ config_loader.parse_symbols value) ∧
  length (config_loader.parse_symbols value)
  = length (filter (λ piece, all_space piece = false) (PyStr.split_on "," value)).
Proof.
  unfold config_loader.parse_symbols. split_and!.
  - intros s (piece & -> & Hp)%list_elem_of_fmap.
    apply list_elem_of_filter in Hp as [Ht Hp].
    split.
    + split_and!.
      * apply strip_idemp.
      * by apply truthy_str_nonempty.
      * apply has_char_strip.
        pose proof (split_on_no_sep "," value) as Hall.
        rewrite Forall_forall in Hall. by apply Hall.
    + exists piece. split_and!; [done| |done]. by apply nonblank_iff.
  - intros piece Hp Hnb. apply list_elem_of_fmap. exists piece. split; [done|].
    apply list_elem_of_filter. split; [|done]. by apply nonblank_iff.
  - rewrite length_fmap. f_equal. apply list_filter_iff, nonblank_iff.
Qed.

Lemma parse_symbols_clean_witness :
  "AAPL" ∈ config_loader.parse_symbols " AAPL , ,GOOG," ∧ clean_symbol "GOOG".
Proof.
  destruct (parse_symbols_clean " AAPL , ,GOOG,") as (Hclean & Hkept & _).
  split.
  - apply (Hkept " AAPL "); [vm_compute; left|reflexivity].
  - apply (Hclean "GOOG"). vm_compute. right; left.
Defined.

Lemma split_on_piece (sep : ascii) (x rest : string) :
  has_char sep x = false →
  PyStr.split_on sep (x +:+ String sep rest) = x :: PyStr.split_on sep rest.
Proof.
  induction x as [|c x IH]; simpl.
  - intros _. by rewrite Ascii.eqb_refl.
  - intros [Hc Hx]%orb_false_iff. rewrite Hc, IH by done. done.
Qed.

Lemma split_on_single (sep : ascii) (x : string) :
  has_char sep x = false → PyStr.split_on sep x = [x].
Proof.
  induction x as [|c x IH]; simpl; [done|].
  intros [Hc Hx]%orb_false_iff. by rewrite Hc, IH.
Qed.

Lemma split_on_join (syms : list string) :
  syms ≠ [] →
  Forall (λ s, has_char "," s = false) syms →
  PyStr.split_on "," (PyStr.join "," syms) = syms.
Proof.
  unfold PyStr.join.
  induction syms as [|x syms IH]; [done|]. intros _ Hall.
  inversion Hall as [|? ? Hx Hrest]; subst.
  destruct syms as [|y syms].
  - simpl. by apply split_on_single.
  - change (String.concat "," (x :: y :: syms))
      with (x +:+ String "," (String.concat "," (y :: syms))).
    rewrite split_on_piece by done. f_equal. by apply IH.
Qed.

Lemma filter_all {A} (P : A → Prop) `{∀ x, Decision (P x)} (l : list A) :
  Forall P l → filter P l = l.
Proof.
  induction 1 as [|x l Hx Hl IH]; [done|].
  by rewrite filter_cons_True, IH.
Qed.

Lemma parse_symbols_join (entries : list string) :
  Forall (λ e, has_char "," e = false) entries →
  config_loader.parse_symbols (PyStr.join "," entries)
  = strip <$> filter (λ e, all_space e = false) entries.
Proof.
  intros Hall. unfold config_loader.parse_symbols.
  destruct entries as [|x entries]; [reflexivity|].
  rewrite split_on_join by done. f_equal.
  apply list_filter_iff, nonblank_iff.
Qed.

(** X17: the watchlist round trip.  With [WATCHLIST_SYMBOLS] unset the
    watchlist is empty.  With it set to entries joined by commas (entries
    that hold no comma themselves), [get_watchlist] returns the entries
    that are not blank, each trimmed, in their order: an entry written
    with spaces around it is kept, without the spaces, and only a blank
    entry is dropped.  So clean symbols come back as they were written. *)
Theorem get_watchlist_round_trip (env : gmap string string) :
  (env !! "WATCHLIST_SYMBOLS" = None → config_loader.get_watchlist env = []) ∧
  (∀ entries, Forall (λ e, has_char "," e = false) entries →
     config_loader.get_watchlist
       (<["WATCHLIST_SYMBOLS" := PyStr.join "," entries]> env)
     = strip <$> filter (λ e, all_space e = false) entries) ∧
  (∀ syms, Forall clean_symbol syms →
     config_loader.get_watchlist (<["WATCHLIST_SYMBOLS" := PyStr.join "," syms]> env)
     = syms).
Proof.
  assert (∀ entries, Forall (λ e, has_char "," e = false) entries →
     config_loader.get_watchlist
       (<["WATCHLIST_SYMBOLS" := PyStr.join "," entries]> env)
     = strip <$> filter (λ e, all_space e = false) entries) as Hjoin.
  { intros entries Hall.
    unfold config_loader.get_watchlist, config_loader.get_config. simpl.
    unfold PyStr.getenv_or. rewrite lookup_insert_eq.
    by apply parse_symbols_join. }
  split_and!.
  - unfold config_loader.get_watchlist, config_loader.get_config. simpl.
    unfold PyStr.getenv_or. intros ->. reflexivity.
  - exact Hjoin.
  - intros syms Hclean. rewrite Hjoin.
    2:{ eapply Forall_impl; [exact Hclean|]. by intros s (_ & _ & ?). }
    rewrite filter_all.
    2:{ eapply Forall_impl; [exact Hclean|]. intros s (Hs & Hne & _). simpl.
        destruct (all_space s) eqn:Hsp; [|done].
        apply strip_empty in Hsp. congruence. }
    rewrite <- (list_fmap_id syms) at 2.
    apply Forall_fmap_ext_1. eapply Forall_impl; [exact Hclean|].
    by intros s (Hs & _).
Qed.

Lemma get_watchlist_round_trip_witness :
  config_loader.get_watchlist (<["WATCHLIST_SYMBOLS" := " TSLA ,, AAPL,$BTC"]> ∅)
  = ["TSLA"; "AAPL"; "$BTC"].
Proof.
  destruct (get_watchlist_round_trip ∅) as (_ & H & _).
  apply (H [" TSLA "; ""; " AAPL"; "$BTC"]).
  repeat constructor.
Defined.

(** ** The start of the agent *)

(** X18: the model the LLM client is built for.  When [LLM_MODEL_NAME] is
    not set, the configuration supplies ["default_model"], and that is the
    name handed to the constructor; ["gemini-1.5-pro"] is used only when
    the variable is set to the empty string; any other value is used as
    it is. *)
Theorem model_name_selection (env : gmap string string) :
  (env !! "LLM_MODEL_NAME" = None →
     llm_startup.model_name (config_loader.get_config env) = "default_model") ∧
  (env !! "LLM_MODEL_NAME" = Some "" →
     llm_startup.model_name (config_loader.get_config env) = "gemini-1.5-pro") ∧
  (∀ name, name ≠ "" → env !! "LLM_MODEL_NAME" = Some name →
     llm_startup.model_name (config_loader.get_config env) = name) ∧
  (∀ construct key,
     key ≠ "" → env !! "LLM_API_KEY" = Some key →
     llm_startup._initialize_client (config_loader.get_config env) construct
     = match construct (llm_startup.model_name (config_loader.get_config env)) key with
       | Ok client => Some client
       | Raise _ => None
       end).
Proof.
  unfold llm_startup.model_name, llm_startup._initialize_client,
    config_loader.get_config, PyStr.getenv_or, PyStr.getenv. simpl.
  split_and!.
  - by intros ->.
  - by intros ->.
  - intros name Hne ->. apply truthy_str_nonempty in Hne. simpl in Hne.
    by rewrite Hne.
  - intros construct key Hne ->. apply truthy_str_nonempty in Hne. simpl in Hne.
    by rewrite Hne.
Qed.

Lemma model_name_selection_witness :
  llm_startup.model_name (config_loader.get_config (<["LLM_API_KEY" := "k"]> ∅))
  = "default_model" ∧
  llm_startup.model_name
    (config_loader.get_config (<["LLM_MODEL_NAME" := "gemini-2.0-flash"]> ∅))
  = "gemini-2.0-flash".
Proof.
  split.
  - destruct (model_name_selection (<["LLM_API_KEY" := "k"]> ∅)) as (H & _).
    apply H. reflexivity.
  - destruct (model_name_selection (<["LLM_MODEL_NAME" := "gemini-2.0-flash"]> ∅))
      as (_ & _ & H & _).
    apply H; [discriminate|reflexivity].
Defined.



(** ** The notification channel *)

(** X20: [send_slack_alert] never raises and makes at most one request.
    It reports success exactly when a client is available and the request
    it made was answered with status 200.  Without a cached client and
    without a webhook url nothing is sent and nothing is cached; a client
    that is cached is used, whatever the configuration says by then. *)
Theorem send_slack_alert_behaviour {B : Type}
    (st : alerting_service.slack_state B) (webhook_url : pyval)
    (construct : string → pyresult alerting_service.WebhookClient)
    (send : alerting_service.WebhookClient → string → B → alerting_service.send_result)
    (text : string) (blocks : B) :
  let result := alerting_service.send_slack_alert st webhook_url construct send text blocks in
  (result.1 = true
   ↔ ∃ c body,
       alerting_service.requests result.2
       = alerting_service.requests st ++ [(c, text, blocks)] ∧
       send c text blocks = alerting_service.Response 200 body) ∧
  (alerting_service.requests result.2 = alerting_service.requests st ∨
   ∃ c, alerting_service.requests result.2
        = alerting_service.requests st ++ [(c, text, blocks)]) ∧
  (alerting_service.cached st = None → truthy webhook_url = false →
     result = (false, st)) ∧
  (∀ c, alerting_service.cached st = Some c →
     alerting_service.cached result.2 = Some c ∧
     alerting_service.requests result.2
     = alerting_service.requests st ++ [(c, text, blocks)]).
Proof.
  intros result. subst result.
  unfold alerting_service.send_slack_alert, alerting_service._initialize_webhook_client.
  destruct st as [cached requests]. simpl.
  assert (∀ (l : list (alerting_service.WebhookClient * string * B)) x, l ≠ l ++ [x])
    as Hgrow.
  { intros l x Heq. apply (f_equal length) in Heq. rewrite length_app in Heq.
    simpl in Heq. lia. }
  destruct cached as [c|].
  - destruct (send c text blocks) as [code body|msg] eqn:Hsend; simpl.
    + split_and!.
      * split.
        -- intros ->%Nat.eqb_eq. by exists c, body.
        -- intros (c' & body' & Hreq & Hs).
           apply app_inv_head in Hreq. injection Hreq as <-.
           rewrite Hsend in Hs. by injection Hs as -> _.
      * right. by exists c.
      * done.
      * by intros c' [= <-].
    + split_and!.
      * split; [done|].
        intros (c' & body' & Hreq & Hs).
        apply app_inv_head in Hreq. injection Hreq as <-.
        rewrite Hsend in Hs. discriminate.
      * right. by exists c.
      * done.
      * by intros c' [= <-].
  - assert (∀ P : Prop, (false = true ↔ P) ↔ ¬ P) as Hfalse.
    { intros P. split; [intros [_ H] HP; by specialize (H HP)|by split]. }
    destruct webhook_url as [|u]; simpl.
    { split_and!; [|by left|done|done].
      apply Hfalse. intros (c & body & Hreq & _). by apply Hgrow in Hreq. }
    destruct (negb (String.eqb u "")) eqn:Hu; simpl.
    2:{ split_and!; [|by left|done|done].
        apply Hfalse. intros (c & body & Hreq & _). by apply Hgrow in Hreq. }
    destruct (construct u) as [c|e]; simpl.
    2:{ split_and!; [|by left|done|done].
        apply Hfalse. intros (c & body & Hreq & _). by apply Hgrow in Hreq. }
    destruct (send c text blocks) as [code body|msg] eqn:Hsend; simpl.
    + split_and!.
      * split.
        -- intros ->%Nat.eqb_eq. by exists c, body.
        -- intros (c' & body' & Hreq & Hs).
           apply app_inv_head in Hreq. injection Hreq as <-.
           rewrite Hsend in Hs. by injection Hs as -> _.
      * right. by exists c.
      * done.
      * done.
    + split_and!.
      * split; [done|].
        intros (c' & body' & Hreq & Hs).
        apply app_inv_head in Hreq. injection Hreq as <-.
        rewrite Hsend in Hs. discriminate.
      * right. by exists c.
      * done.
      * done.
Qed.

Lemma send_slack_alert_behaviour_witness :
  alerting_service.send_slack_alert
    {| alerting_service.cached := None; alerting_service.requests := [] |}
    PNone (λ u, Ok {| alerting_service.url := u |})
    (λ _ _ (_ : unit), alerting_service.Response 200 "ok") "text" tt
  = (false, {| alerting_service.cached := None; alerting_service.requests := [] |}).
Proof.
  destruct (send_slack_alert_behaviour
              {| alerting_service.cached := None; alerting_service.requests := [] |}
              PNone (λ u, Ok {| alerting_service.url := u |})
              (λ _ _ (_ : unit), alerting_service.Response 200 "ok") "text" tt)
    as (_ & _ & H & _).
  apply H; reflexivity.
Defined.

(** ** The article enricher: the keys of the record *)

(** X21: enrichment never removes a key.  The record of an article with
    blank text has the keys of the article; otherwise it has the keys of
    the article and [summary], [sentiment] and [topic], whose earlier
    values, if the article had any, are overwritten. *)
Theorem process_single_article_dom (llm : enrichment) (a : Article) :
  (blank_text a → dom (process_single_article llm a) = dom a) ∧
  (¬ blank_text a →
     dom (process_single_article llm a)
     = {["summary"; "sentiment"; "topic"]} ∪ dom a) ∧
  (∀ k, is_Some (a !! k) → is_Some (process_single_article llm a !! k)).
Proof.
  split_and!.
  - intros Hb. by rewrite process_single_article_blank.
  - intros Hnb. rewrite process_single_article_enriched by done.
    rewrite !dom_insert_L. set_solver.
  - intros k Hk. destruct (decide (blank_text a)) as [Hb|Hnb].
    + by rewrite process_single_article_blank.
    + apply elem_of_dom. rewrite process_single_article_enriched by done.
      rewrite !dom_insert_L. apply elem_of_dom in Hk. set_solver.
Qed.

Lemma process_single_article_dom_witness :
  dom (process_single_article fake_enrichment BLANK_ARTICLE) = dom BLANK_ARTICLE ∧
  is_Some (process_single_article fake_enrichment MOCK_RAW_ARTICLE_NEUTRAL !! "url").
Proof.
  split.
  - destruct (process_single_article_dom fake_enrichment BLANK_ARTICLE) as (H & _).
    apply H. vm_compute. reflexivity.
  - destruct (process_single_article_dom fake_enrichment MOCK_RAW_ARTICLE_NEUTRAL)
      as (_ & _ & H).
    apply H. vm_compute. by eexists.
Defined.
